(** * parseh: translation of C function signatures into an [extern] block

    A shallow embedding of [src/parseh.cpp].  C strings ([const char *],
    [Buf]) are [string]s holding the bytes before the terminating NUL;
    [ZigList<T>] is [list T]; a pointer that walks a C string is the
    suffix of the string it points at.  The libclang values the program
    inspects ([CXType], [CXCursor]) are finite trees carrying the answers
    of the accessors the program calls on them. *)

From Stdlib Require Import List String Ascii ZArith Lia Bool Arith.
From Stdlib Require Import Numbers.DecimalString DecimalZ DecimalPos.
From Equations Require Import Equations.
From Equations.Prop Require Import Logic.
Import ListNotations.

Local Open Scope list_scope.
Local Open Scope string_scope.

(** ** C string helpers *)

Module CStr.

(** [strlen]. *)
Definition strlen (s : string) : nat := String.length s.

(** [p + n] for a pointer [p] into a C string: the suffix after [n]
    bytes (never past the terminating NUL). *)
Fixpoint advance (n : nat) (s : string) : string :=
  match n, s with
  | S n', String _ s' => advance n' s'
  | _, _ => s
  end.

(** [strstr(s, " ")]: [Some (before, from)] where [from] is the suffix
    of [s] that starts at the first space, [before] the bytes in front
    of it ([space - start] bytes); [None] for the null pointer. *)
Fixpoint strstr_space (s : string) : option (string * string) :=
  match s with
  | EmptyString => None
  | String c s' =>
      if Ascii.eqb c " "%char then Some (EmptyString, s)
      else match strstr_space s' with
           | Some (before, from) => Some (String c before, from)
           | None => None
           end
  end.

Lemma advance_length n s : String.length (advance n s) = String.length s - n.
Proof.
  revert s; induction n as [|n IH]; intros [|c s]; simpl; auto.
Qed.

Lemma length_append s t :
  String.length (s ++ t) = String.length s + String.length t.
Proof. induction s; simpl; auto. Qed.

Lemma append_assoc s t u : (s ++ t) ++ u = s ++ t ++ u.
Proof. induction s; simpl; congruence. Qed.

Lemma append_empty_r s : s ++ "" = s.
Proof. induction s; simpl; congruence. Qed.

Lemma advance_append p s : advance (String.length p) (p ++ s) = s.
Proof. induction p; simpl; auto. Qed.

Lemma strstr_space_split s before from :
  strstr_space s = Some (before, from) ->
  s = before ++ from /\ exists rest, from = String " "%char rest.
Proof.
  revert before from; induction s as [|c s IH]; simpl; intros before from H.
  - discriminate.
  - destruct (Ascii.eqb c " "%char) eqn:E.
    + inversion H; subst. apply Ascii.eqb_eq in E; subst. simpl. eauto.
    + destruct (strstr_space s) as [[b f]|] eqn:E'; inversion H; subst.
      destruct (IH _ _ eq_refl) as [-> Hr]. simpl. auto.
Qed.

End CStr.

(** ** Name cleaning: [str_has_prefix] and [prefixes_stripped] *)

(** The [while] loop over [prefix]: both pointers advance together as long
    as the bytes agree; running out of [str] first is a mismatch. *)
Fixpoint str_has_prefix (str prefix : string) {struct prefix} : bool :=
  match prefix with
  | EmptyString => true
  | String pc prefix' =>
      match str with
      | EmptyString => false
      | String sc str' =>
          if Ascii.eqb sc pc then str_has_prefix str' prefix' else false
      end
  end.

(** The static table of [prefixes_stripped]. *)
Definition prefixes : list string := ["struct "; "enum "; "const "].

(** One run of the [for] loop: the first table entry that is a prefix of
    [c_name], if there is one. *)
Fixpoint first_prefix (ps : list string) (c_name : string) : option string :=
  match ps with
  | [] => None
  | prefix :: ps' =>
      if str_has_prefix c_name prefix then Some prefix
      else first_prefix ps' c_name
  end.

Lemma str_has_prefix_app str prefix :
  str_has_prefix str prefix = true -> exists rest, str = prefix ++ rest.
Proof.
  revert str; induction prefix as [|pc p IH]; intros str H; simpl in *.
  - eauto.
  - destruct str as [|sc str]; simpl in H; [discriminate|].
    destruct (Ascii.eqb sc pc) eqn:E; [|discriminate].
    apply Ascii.eqb_eq in E; subst.
    destruct (IH _ H) as [rest ->]. eauto.
Qed.

Lemma str_has_prefix_of_app prefix rest : str_has_prefix (prefix ++ rest) prefix = true.
Proof.
  induction prefix as [|pc p IH]; cbn; auto.
  rewrite Ascii.eqb_refl. exact IH.
Qed.

Lemma first_prefix_in ps c_name prefix :
  first_prefix ps c_name = Some prefix ->
  In prefix ps /\ str_has_prefix c_name prefix = true.
Proof.
  induction ps as [|p ps IH]; simpl; [discriminate|].
  destruct (str_has_prefix c_name p) eqn:E; intros H.
  - inversion H; subst. auto.
  - destruct (IH H). auto.
Qed.

Lemma prefixes_nonempty prefix : In prefix prefixes -> 0 < String.length prefix.
Proof.
  unfold prefixes; simpl.
  intros [<-|[<-|[<-|[]]]]; simpl; lia.
Qed.

Lemma first_prefix_shrinks c_name prefix :
  first_prefix prefixes c_name = Some prefix ->
  String.length (CStr.advance (CStr.strlen prefix) c_name) < String.length c_name.
Proof.
  intros H. destruct (first_prefix_in _ _ _ H) as [Hin Hp].
  apply prefixes_nonempty in Hin.
  destruct (str_has_prefix_app _ _ Hp) as [rest ->].
  rewrite CStr.advance_length.
  unfold CStr.strlen. rewrite CStr.length_append. lia.
Qed.

(** The [start_over:] loop on the spelling: each [goto] moves [c_name]
    past the prefix that matched, so the string still to scan shrinks. *)
Equations strip_c_name (c_name : string) : string by wf (String.length c_name) lt :=
  strip_c_name c_name with inspect (first_prefix prefixes c_name) := {
    | exist _ (Some prefix) Hfound :=
        strip_c_name (CStr.advance (CStr.strlen prefix) c_name);
    | exist _ None _ := c_name }.
Next Obligation.
  apply first_prefix_shrinks. assumption.
Qed.

Example strip_c_name_ex1 : strip_c_name "const struct Foo" = "Foo".
Proof. reflexivity. Qed.

(** ** Aborts, the error stream and the program state *)

(** The ways the program stops the whole run: [zig_panic(msg)],
    [zig_unreachable()], a failed [assert(cond)] and [exit(status)]. *)
Inductive abort : Type :=
| Abort_panic (msg : string)
| Abort_unreachable
| Abort_assert (cond : string)
| Abort_exit (status : Z).

(** [CXSourceLocation], as [clang_getFileLocation] and [clang_getFileName]
    decode it. *)
Record CXSourceLocation : Type := {
  loc_file_name : string;
  loc_line : N;
  loc_column : N;
  loc_offset : N
}.

Record CXSourceRange : Type := {
  range_start : CXSourceLocation;
  range_end : CXSourceLocation
}.

Definition clang_getRangeStart (r : CXSourceRange) : CXSourceLocation :=
  range_start r.

(** Modelled from the spec: [Buf] of [buffer.hpp] is not among the sources;
    a buffer is the text it holds. *)
Definition Buf : Type := string.

Record Arg : Type := {
  arg_name : Buf;
  arg_type : Buf
}.

(** [struct Fn]; the array [args] and its length [arg_count] are one list. *)
Record Fn : Type := {
  fn_name : Buf;
  return_type : Buf;
  args : list Arg
}.

Definition arg_count (fn : Fn) : nat := List.length (args fn).

(** [struct ParseH].  [f] holds the text written to the output stream so
    far. *)
Record ParseH : Type := {
  f : string;
  fn_list : list Fn;
  cur_fn : option Fn;
  arg_index : nat;
  cur_indent : nat;
  range : CXSourceRange;
  location : CXSourceLocation
}.

(** The state a run threads through: the [ParseH] the callbacks receive and
    what has been written to [stderr], one entry per [fprintf] call. *)
Record World : Type := {
  parse_h : ParseH;
  stderr : list string
}.

Inductive outcome (A : Type) : Type :=
| Done (a : A) (w : World)
| Aborted (e : abort) (w : World).
Arguments Done {A} a w.
Arguments Aborted {A} e w.

Definition M (A : Type) : Type := World -> outcome A.

Definition ret {A} (a : A) : M A := fun w => Done a w.

Definition bind {A B} (m : M A) (k : A -> M B) : M B :=
  fun w => match m w with
           | Done a w' => k a w'
           | Aborted e w' => Aborted e w'
           end.

Definition throw {A} (e : abort) : M A := fun w => Aborted e w.

Notation "x <- m ;; k" := (bind m (fun x => k))
  (at level 61, m at next level, right associativity).
Notation "m ;;; k" := (bind m (fun _ => k))
  (at level 61, right associativity).

(** Modelled from the spec: [zig_panic] and [zig_unreachable] of [util.hpp]
    are not among the sources.  A fatal diagnostic aborts the whole run at
    once; the message travels with the abort. *)
Definition zig_panic {A} (msg : string) : M A := throw (Abort_panic msg).
Definition zig_unreachable {A} : M A := throw Abort_unreachable.

(** [assert] of the C library. *)
Definition assert (cond : bool) (text : string) : M unit :=
  if cond then ret tt else throw (Abort_assert text).

Definition get_p : M ParseH := fun w => Done (parse_h w) w.
Definition modify_p (g : ParseH -> ParseH) : M unit :=
  fun w => Done tt {| parse_h := g (parse_h w); stderr := stderr w |}.
Definition fprintf_stderr (text : string) : M unit :=
  fun w => Done tt {| parse_h := parse_h w; stderr := stderr w ++ [text] |}%list.

(** [%u] and [%ld]. *)
Definition fmt_u (n : N) : string := NilZero.string_of_uint (N.to_uint n).
Definition fmt_ld (z : Z) : string := NilZero.string_of_int (Z.to_int z).

Definition nl : string := String "010" "".

(** The line [print_location] writes for a location. *)
Definition location_line (l : CXSourceLocation) : string :=
  loc_file_name l ++ " line " ++ fmt_u (loc_line l)
  ++ ", column " ++ fmt_u (loc_column l) ++ nl.

Definition print_location : M unit :=
  p <- get_p ;;
  fprintf_stderr (location_line (location p)).

(** ** Types as libclang describes them *)

(** [enum CXTypeKind] of libclang, the kinds [to_zig_type] switches on. *)
Inductive CXTypeKind : Type :=
| CXType_Invalid | CXType_Unexposed | CXType_Void | CXType_Bool
| CXType_Char_U | CXType_UChar | CXType_Char16 | CXType_Char32
| CXType_UShort | CXType_UInt | CXType_ULong | CXType_ULongLong
| CXType_UInt128 | CXType_Char_S | CXType_SChar | CXType_WChar
| CXType_Short | CXType_Int | CXType_Long | CXType_LongLong
| CXType_Int128 | CXType_Float | CXType_Double | CXType_LongDouble
| CXType_NullPtr | CXType_Overload | CXType_Dependent | CXType_ObjCId
| CXType_ObjCClass | CXType_ObjCSel | CXType_Complex | CXType_Pointer
| CXType_BlockPointer | CXType_LValueReference | CXType_RValueReference
| CXType_Record | CXType_Enum | CXType_Typedef | CXType_ObjCInterface
| CXType_ObjCObjectPointer | CXType_FunctionNoProto | CXType_FunctionProto
| CXType_ConstantArray | CXType_Vector | CXType_IncompleteArray
| CXType_VariableArray | CXType_DependentSizedArray | CXType_MemberPointer.

(** A [CXType] with what the accessors used by [to_zig_type] answer on it:
    [raw_type.kind], [clang_getTypeSpelling], [clang_isConstQualifiedType],
    [clang_getCanonicalType], [clang_getPointeeType],
    [clang_getArrayElementType], [clang_getArraySize] and
    [clang_getTypedefDeclUnderlyingType] of [clang_getTypeDeclaration].
    [CXType_none] is the invalid type an accessor returns where it does
    not apply.  C types are finite, so are these trees. *)
Inductive CXType : Type :=
| CXType_none
| CXType_of (kind : CXTypeKind) (spelling : string) (const_qualified : bool)
            (canonical pointee element : CXType) (array_size : Z)
            (underlying : CXType).

Definition type_kind (t : CXType) : CXTypeKind :=
  match t with
  | CXType_none => CXType_Invalid
  | CXType_of k _ _ _ _ _ _ _ => k
  end.

Definition clang_getTypeSpelling (t : CXType) : string :=
  match t with
  | CXType_none => ""
  | CXType_of _ s _ _ _ _ _ _ => s
  end.

Definition clang_isConstQualifiedType (t : CXType) : bool :=
  match t with
  | CXType_none => false
  | CXType_of _ _ q _ _ _ _ _ => q
  end.

Definition clang_getCanonicalType (t : CXType) : CXType :=
  match t with
  | CXType_none => CXType_none
  | CXType_of _ _ _ c _ _ _ _ => c
  end.

Definition clang_getPointeeType (t : CXType) : CXType :=
  match t with
  | CXType_none => CXType_none
  | CXType_of _ _ _ _ p _ _ _ => p
  end.

Definition clang_getArrayElementType (t : CXType) : CXType :=
  match t with
  | CXType_none => CXType_none
  | CXType_of _ _ _ _ _ e _ _ => e
  end.

Definition clang_getArraySize (t : CXType) : Z :=
  match t with
  | CXType_none => (-1)%Z
  | CXType_of _ _ _ _ _ _ n _ => n
  end.

Definition clang_getTypedefUnderlyingType (t : CXType) : CXType :=
  match t with
  | CXType_none => CXType_none
  | CXType_of _ _ _ _ _ _ _ u => u
  end.

Definition prefixes_stripped (type : CXType) : string :=
  strip_c_name (clang_getTypeSpelling type).

(** The cast [(long)] of a [long long], [long] being 64 bits wide. *)
Definition to_long (z : Z) : Z :=
  ((z + 2 ^ 63) mod 2 ^ 64 - 2 ^ 63)%Z.

(** Modelled from the spec: [buf_create_from_str] of [buffer.hpp], a new
    buffer with the text of the C string. *)
Definition buf_create_from_str (s : string) : M Buf := ret s.

(** ** The type classifier [to_zig_type] *)

Definition pointer_to (pointee_type : CXType) (pointee_buf : Buf) : Buf :=
  if clang_isConstQualifiedType pointee_type
  then "*const " ++ pointee_buf
  else "*mut " ++ pointee_buf.

(** The [strcmp] chain of the [CXType_Typedef] case: the sized integer
    type of a fixed-width alias, [None] when the chain reaches its last
    [else]. *)
Definition typedef_shortcut (name : string) : option string :=
  if String.eqb name "int8_t" then Some "i8"
  else if String.eqb name "uint8_t" then Some "u8"
  else if String.eqb name "uint16_t" then Some "u16"
  else if String.eqb name "uint32_t" then Some "u32"
  else if String.eqb name "uint64_t" then Some "u64"
  else if String.eqb name "int16_t" then Some "i16"
  else if String.eqb name "int32_t" then Some "i32"
  else if String.eqb name "int64_t" then Some "i64"
  else None.

Fixpoint to_zig_type (raw_type : CXType) : M Buf :=
  match raw_type with
  | CXType_none => zig_unreachable
  | CXType_of kind _ _ canonical pointee_type element_type _ underlying_type =>
      match kind with
      | CXType_Unexposed =>
          match type_kind canonical with
          | CXType_Unexposed => zig_panic "clang C api insufficient"
          | _ => to_zig_type canonical
          end
      | CXType_Invalid => zig_unreachable
      | CXType_Void => buf_create_from_str "void"
      | CXType_Bool => buf_create_from_str "bool"
      | CXType_SChar => buf_create_from_str "i8"
      | CXType_Char_U | CXType_Char_S | CXType_UChar => buf_create_from_str "u8"
      | CXType_WChar => print_location ;;; zig_panic "TODO wchar"
      | CXType_Char16 => print_location ;;; zig_panic "TODO char16"
      | CXType_Char32 => print_location ;;; zig_panic "TODO char32"
      | CXType_UShort => buf_create_from_str "c_ushort"
      | CXType_UInt => buf_create_from_str "c_uint"
      | CXType_ULong => buf_create_from_str "c_ulong"
      | CXType_ULongLong => buf_create_from_str "c_ulonglong"
      | CXType_UInt128 => print_location ;;; zig_panic "TODO uint128"
      | CXType_Short => buf_create_from_str "c_short"
      | CXType_Int => buf_create_from_str "c_int"
      | CXType_Long => buf_create_from_str "c_long"
      | CXType_LongLong => buf_create_from_str "c_longlong"
      | CXType_Int128 => print_location ;;; zig_panic "TODO int128"
      | CXType_Float => buf_create_from_str "f32"
      | CXType_Double => buf_create_from_str "f64"
      | CXType_LongDouble => buf_create_from_str "f128"
      | CXType_IncompleteArray =>
          pointee_buf <- to_zig_type element_type ;;
          ret (pointer_to element_type pointee_buf)
      | CXType_Pointer =>
          pointee_buf <- to_zig_type pointee_type ;;
          ret (pointer_to pointee_type pointee_buf)
      | CXType_Record => ret (prefixes_stripped raw_type)
      | CXType_Enum => ret (prefixes_stripped raw_type)
      | CXType_Typedef =>
          match typedef_shortcut (prefixes_stripped raw_type) with
          | Some sized => buf_create_from_str sized
          | None => to_zig_type underlying_type
          end
      | CXType_ConstantArray =>
          zig_child_type <- to_zig_type element_type ;;
          let size := to_long (clang_getArraySize raw_type) in
          ret ("[" ++ zig_child_type ++ "; " ++ fmt_ld size ++ "]")
      | CXType_FunctionProto =>
          fprintf_stderr ("warning: TODO function proto" ++ nl) ;;;
          print_location ;;;
          buf_create_from_str "*const u8"
      | CXType_FunctionNoProto =>
          print_location ;;; zig_panic "TODO function no proto"
      | CXType_BlockPointer => print_location ;;; zig_panic "TODO block pointer"
      | CXType_Vector => print_location ;;; zig_panic "TODO vector"
      | CXType_LValueReference | CXType_RValueReference
      | CXType_VariableArray | CXType_DependentSizedArray
      | CXType_MemberPointer | CXType_ObjCInterface
      | CXType_ObjCObjectPointer | CXType_NullPtr | CXType_Overload
      | CXType_Dependent | CXType_ObjCId | CXType_ObjCClass | CXType_ObjCSel
      | CXType_Complex => print_location ;;; zig_panic "TODO"
      end
  end.

(** ** Cursors *)

(** [enum CXCursorKind] of libclang: the kinds [fn_visitor] names, some of
    the kinds that fall to its [default], and the rest by their code. *)
Inductive CXCursorKind : Type :=
| CXCursor_UnexposedDecl | CXCursor_StructDecl | CXCursor_UnionDecl
| CXCursor_EnumDecl | CXCursor_FieldDecl | CXCursor_EnumConstantDecl
| CXCursor_FunctionDecl | CXCursor_VarDecl | CXCursor_ParmDecl
| CXCursor_TypedefDecl | CXCursor_TypeRef | CXCursor_CompoundStmt
| CXCursor_UnexposedAttr
| CXCursor_other (code : N).

(** [enum CX_StorageClass] of libclang.  [CX_SC_Invalid] is its answer for
    a cursor that is neither a function nor a variable declaration. *)
Inductive CX_StorageClass : Type :=
| CX_SC_Invalid | CX_SC_None | CX_SC_Extern | CX_SC_Static
| CX_SC_PrivateExtern | CX_SC_OpenCLWorkGroupLocal | CX_SC_Auto
| CX_SC_Register.

Inductive CXCallingConv : Type :=
| CXCallingConv_Default | CXCallingConv_C | CXCallingConv_X86StdCall
| CXCallingConv_X86FastCall | CXCallingConv_X86ThisCall
| CXCallingConv_X86Pascal | CXCallingConv_AAPCS | CXCallingConv_AAPCS_VFP
| CXCallingConv_IntelOclBicc | CXCallingConv_X86_64Win64
| CXCallingConv_X86_64SysV | CXCallingConv_X86VectorCall
| CXCallingConv_Invalid | CXCallingConv_Unexposed.

Inductive CXChildVisitResult : Type :=
| CXChildVisit_Break | CXChildVisit_Continue | CXChildVisit_Recurse.

(** The type of a function declaration, [clang_getCursorType(cursor)], with
    what the function-type accessors answer on it:
    [clang_isFunctionTypeVariadic], [clang_getFunctionTypeCallingConv],
    [clang_getResultType], and [clang_getNumArgTypes] with
    [clang_getArgType] as one list. *)
Record CXFunctionType : Type := {
  fn_variadic : bool;
  fn_calling_conv : CXCallingConv;
  fn_result_type : CXType;
  fn_arg_types : list CXType
}.

#[warnings="-register-all"] Inductive CXCursor : Type :=
| Cursor (kind : CXCursorKind) (spelling : string) (extent : CXSourceRange)
         (storage_class : CX_StorageClass) (type : CXFunctionType)
         (children : list CXCursor).

Definition clang_getCursorKind (c : CXCursor) : CXCursorKind :=
  let (k, _, _, _, _, _) := c in k.
Definition clang_getCursorSpelling (c : CXCursor) : string :=
  let (_, s, _, _, _, _) := c in s.
Definition clang_getCursorExtent (c : CXCursor) : CXSourceRange :=
  let (_, _, e, _, _, _) := c in e.
Definition clang_Cursor_getStorageClass (c : CXCursor) : CX_StorageClass :=
  let (_, _, _, sc, _, _) := c in sc.
Definition clang_getCursorType (c : CXCursor) : CXFunctionType :=
  let (_, _, _, _, t, _) := c in t.
Definition cursor_children (c : CXCursor) : list CXCursor :=
  let (_, _, _, _, _, cs) := c in cs.

Definition clang_isFunctionTypeVariadic (t : CXFunctionType) : bool := fn_variadic t.
Definition clang_getFunctionTypeCallingConv (t : CXFunctionType) : CXCallingConv :=
  fn_calling_conv t.
Definition clang_getResultType (t : CXFunctionType) : CXType := fn_result_type t.
Definition clang_getNumArgTypes (t : CXFunctionType) : nat := List.length (fn_arg_types t).
Definition clang_getArgType (t : CXFunctionType) (i : nat) : CXType :=
  nth i (fn_arg_types t) CXType_none.

Definition is_calling_conv_C (cc : CXCallingConv) : bool :=
  match cc with CXCallingConv_C => true | _ => false end.

(** ** The declaration collector *)

Definition is_storage_class_export (storage_class : CX_StorageClass) : M bool :=
  match storage_class with
  | CX_SC_Invalid => zig_unreachable
  | CX_SC_None | CX_SC_Extern | CX_SC_Auto => ret true
  | CX_SC_Static | CX_SC_PrivateExtern | CX_SC_OpenCLWorkGroupLocal
  | CX_SC_Register => ret false
  end.

Definition set_f (v : string) (p : ParseH) : ParseH :=
  {| f := v; fn_list := fn_list p; cur_fn := cur_fn p; arg_index := arg_index p;
     cur_indent := cur_indent p; range := range p; location := location p |}.
Definition set_fn_list (v : list Fn) (p : ParseH) : ParseH :=
  {| f := f p; fn_list := v; cur_fn := cur_fn p; arg_index := arg_index p;
     cur_indent := cur_indent p; range := range p; location := location p |}.
Definition set_cur_fn (v : option Fn) (p : ParseH) : ParseH :=
  {| f := f p; fn_list := fn_list p; cur_fn := v; arg_index := arg_index p;
     cur_indent := cur_indent p; range := range p; location := location p |}.
Definition set_arg_index (v : nat) (p : ParseH) : ParseH :=
  {| f := f p; fn_list := fn_list p; cur_fn := cur_fn p; arg_index := v;
     cur_indent := cur_indent p; range := range p; location := location p |}.
Definition set_cur_indent (v : nat) (p : ParseH) : ParseH :=
  {| f := f p; fn_list := fn_list p; cur_fn := cur_fn p; arg_index := arg_index p;
     cur_indent := v; range := range p; location := location p |}.
Definition set_range (v : CXSourceRange) (p : ParseH) : ParseH :=
  {| f := f p; fn_list := fn_list p; cur_fn := cur_fn p; arg_index := arg_index p;
     cur_indent := cur_indent p; range := v; location := location p |}.
Definition set_location (v : CXSourceLocation) (p : ParseH) : ParseH :=
  {| f := f p; fn_list := fn_list p; cur_fn := cur_fn p; arg_index := arg_index p;
     cur_indent := cur_indent p; range := range p; location := v |}.

(** Modelled from the spec: [allocate] of [util.hpp] is not among the
    sources.  [allocate<Fn>(1)] and [allocate<Arg>(n)] hand out zero-filled
    records; a [Buf] that has not been set is the empty string here. *)
Definition zeroed_Fn : Fn := {| fn_name := ""; return_type := ""; args := [] |}.
Definition zeroed_Arg : Arg := {| arg_name := ""; arg_type := "" |}.
Definition allocate_Arg (n : nat) : list Arg := repeat zeroed_Arg n.

Definition set_fn_name (v : Buf) (fn : Fn) : Fn :=
  {| fn_name := v; return_type := return_type fn; args := args fn |}.
Definition set_return_type (v : Buf) (fn : Fn) : Fn :=
  {| fn_name := fn_name fn; return_type := v; args := args fn |}.
Definition set_args (v : list Arg) (fn : Fn) : Fn :=
  {| fn_name := fn_name fn; return_type := return_type fn; args := v |}.
Definition set_arg_name (v : Buf) (a : Arg) : Arg :=
  {| arg_name := v; arg_type := arg_type a |}.
Definition set_arg_type (v : Buf) (a : Arg) : Arg :=
  {| arg_name := arg_name a; arg_type := v |}.

(** [a[i] = g(a[i])] on an array; the program only writes below the
    array's length, where the model does what C does. *)
Fixpoint update_at {A} (i : nat) (g : A -> A) (a : list A) : list A :=
  match a, i with
  | [], _ => []
  | x :: a', O => g x :: a'
  | x :: a', S i' => x :: update_at i' g a'
  end.

(** A write through [p->cur_fn], which [begin_fn] has made non-null. *)
Definition update_cur_fn (g : Fn -> Fn) : M unit :=
  modify_p (fun p => set_cur_fn (option_map g (cur_fn p)) p).

Definition begin_fn : M unit :=
  p <- get_p ;;
  assert (match cur_fn p with None => true | Some _ => false end) "!p->cur_fn" ;;;
  modify_p (set_cur_fn (Some zeroed_Fn)).

Definition end_fn : M unit :=
  p <- get_p ;;
  match cur_fn p with
  | Some fn =>
      modify_p (fun p => set_fn_list (fn_list p ++ [fn])%list p) ;;;
      modify_p (set_cur_fn None)
  | None => ret tt
  end.

(** The [for] loop of the function-declaration case, from index [i] on. *)
Fixpoint classify_params (fn_type : CXFunctionType) (i : nat) (todo : nat) : M unit :=
  match todo with
  | O => ret tt
  | S todo' =>
      let param_type := clang_getArgType fn_type i in
      ty <- to_zig_type param_type ;;
      update_cur_fn (fun fn => set_args (update_at i (set_arg_type ty) (args fn)) fn) ;;;
      classify_params fn_type (i + 1) todo'
  end.

Definition fn_visitor (cursor : CXCursor) : M CXChildVisitResult :=
  let kind := clang_getCursorKind cursor in
  let name := clang_getCursorSpelling cursor in
  modify_p (set_range (clang_getCursorExtent cursor)) ;;;
  modify_p (fun p => set_location (clang_getRangeStart (range p)) p) ;;;
  match kind with
  | CXCursor_FunctionDecl =>
      let storage_class := clang_Cursor_getStorageClass cursor in
      export <- is_storage_class_export storage_class ;;
      if negb export then ret CXChildVisit_Continue else
      let fn_type := clang_getCursorType cursor in
      if clang_isFunctionTypeVariadic fn_type then
        print_location ;;;
        fprintf_stderr ("warning: skipping variadic function, not yet supported" ++ nl) ;;;
        ret CXChildVisit_Continue
      else if negb (is_calling_conv_C (clang_getFunctionTypeCallingConv fn_type)) then
        print_location ;;;
        fprintf_stderr
          ("warning: skipping non c calling convention function, not yet supported" ++ nl) ;;;
        ret CXChildVisit_Continue
      else
        end_fn ;;;
        begin_fn ;;;
        let return_type := clang_getResultType fn_type in
        rt <- to_zig_type return_type ;;
        update_cur_fn (set_return_type rt) ;;;
        update_cur_fn (set_fn_name name) ;;;
        let arg_count := clang_getNumArgTypes fn_type in
        update_cur_fn (set_args (allocate_Arg arg_count)) ;;;
        classify_params fn_type 0 arg_count ;;;
        modify_p (set_arg_index 0) ;;;
        ret CXChildVisit_Recurse
  | CXCursor_ParmDecl =>
      p <- get_p ;;
      match cur_fn p with
      | None => throw (Abort_assert "p->cur_fn")
      | Some fn =>
          assert (Nat.ltb (arg_index p) (arg_count fn)) "p->arg_index < p->cur_fn->arg_count" ;;;
          update_cur_fn (fun fn =>
            set_args (update_at (arg_index p) (set_arg_name name) (args fn)) fn) ;;;
          modify_p (fun p => set_arg_index (arg_index p + 1) p) ;;;
          ret CXChildVisit_Continue
      end
  | CXCursor_UnexposedAttr | CXCursor_CompoundStmt | CXCursor_FieldDecl
  | CXCursor_TypedefDecl => ret CXChildVisit_Continue
  | _ => ret CXChildVisit_Recurse
  end.

(** [clang_visitChildren]: the children in order; [Recurse] descends into
    a child before its next sibling, [Continue] goes on with the sibling,
    [Break] ends the traversal.  The result tells whether it was broken
    off. *)
Fixpoint visit_cursor (visitor : CXCursor -> M CXChildVisitResult)
    (cursor : CXCursor) : M bool :=
  r <- visitor cursor ;;
  match r with
  | CXChildVisit_Break => ret true
  | CXChildVisit_Continue => ret false
  | CXChildVisit_Recurse =>
      match cursor with
      | Cursor _ _ _ _ _ children =>
          (fix visit_all (cs : list CXCursor) : M bool :=
             match cs with
             | [] => ret false
             | c :: cs' =>
                 broken <- visit_cursor visitor c ;;
                 if broken then ret true else visit_all cs'
             end) children
      end
  end.

Fixpoint visit_cursors (visitor : CXCursor -> M CXChildVisitResult)
    (cs : list CXCursor) : M bool :=
  match cs with
  | [] => ret false
  | c :: cs' =>
      broken <- visit_cursor visitor c ;;
      if broken then ret true else visit_cursors visitor cs'
  end.

Definition clang_visitChildren (parent : CXCursor)
    (visitor : CXCursor -> M CXChildVisitResult) : M bool :=
  visit_cursors visitor (cursor_children parent).

(** ** Compiler flags from the environment *)

Lemma strstr_space_shrinks start before from :
  CStr.strstr_space start = Some (before, from) ->
  String.length (CStr.advance 1 from) < String.length start.
Proof.
  intros H. apply CStr.strstr_space_split in H.
  destruct H as [-> [rest ->]].
  rewrite CStr.length_append. simpl. lia.
Qed.

(** The [while (space)] loop of [parse_h_file] together with the append
    that follows it.  [start] is the unread rest of the variable's value;
    [before] holds the [space - start] bytes in front of the space found. *)
Equations split_cflags (start : string) (clang_argv : list (option string))
  : list (option string) by wf (String.length start) lt :=
  split_cflags start clang_argv with inspect (CStr.strstr_space start) := {
    | exist _ (Some (before, from)) Hspace :=
        split_cflags (CStr.advance 1 from)
          (if Nat.ltb 0 (String.length before)
           then (clang_argv ++ [Some before])%list
           else clang_argv);
    | exist _ None _ := (clang_argv ++ [Some start])%list }.
Next Obligation.
  eapply strstr_space_shrinks. eassumption.
Qed.

(** Lines 336 to 353: what [parse_h_file] appends to [clang_argv], the
    null pointer being [None]. *)
Definition append_cflags (ZIG_PARSEH_CFLAGS : option string)
    (clang_argv : list (option string)) : list (option string) :=
  (match ZIG_PARSEH_CFLAGS with
   | Some start => split_cflags start clang_argv
   | None => clang_argv
   end ++ [None])%list.

(** ** The emitter *)

Definition fprintf_f (text : string) : M unit :=
  modify_p (fun p => set_f (f p ++ text) p).

Fixpoint print_indent_from (todo : nat) : M unit :=
  match todo with
  | O => ret tt
  | S todo' => fprintf_f " " ;;; print_indent_from todo'
  end.

Definition print_indent : M unit :=
  p <- get_p ;; print_indent_from (cur_indent p).

Definition indent_size : nat := 4.

(** Modelled from the spec: [buf_eql_str] of [buffer.hpp], whether the
    buffer's text is the C string. *)
Definition buf_eql_str (b : Buf) (s : string) : bool := String.eqb b s.

(** The inner [for] loop: the arguments from index [arg_i] on. *)
Fixpoint emit_args (fn : Fn) (arg_i : nat) (rest : list Arg) : M unit :=
  match rest with
  | [] => ret tt
  | arg :: rest' =>
      fprintf_f (arg_name arg ++ ": " ++ arg_type arg) ;;;
      (if Nat.ltb (arg_i + 1) (arg_count fn) then fprintf_f ", " else ret tt) ;;;
      emit_args fn (arg_i + 1) rest'
  end.

Definition emit_fn (fn : Fn) : M unit :=
  print_indent ;;;
  fprintf_f ("fn " ++ fn_name fn ++ "(") ;;;
  emit_args fn 0 (args fn) ;;;
  fprintf_f ")" ;;;
  (if negb (buf_eql_str (return_type fn) "void")
   then fprintf_f (" -> " ++ return_type fn)
   else ret tt) ;;;
  fprintf_f (";" ++ nl).

Fixpoint emit_fns (fns : list Fn) : M unit :=
  match fns with
  | [] => ret tt
  | fn :: fns' => emit_fn fn ;;; emit_fns fns'
  end.

(** Lines 388 to 409. *)
Definition emit : M unit :=
  p <- get_p ;;
  match fn_list p with
  | [] => ret tt
  | _ :: _ =>
      fprintf_f ("extern {" ++ nl) ;;;
      modify_p (fun p => set_cur_indent (cur_indent p + indent_size) p) ;;;
      emit_fns (fn_list p) ;;;
      fprintf_f ("}" ++ nl)
  end.

(** ** [parse_h_file] *)

Record CXDiagnostic : Type := {
  diag_location : CXSourceLocation;
  diag_spelling : string
}.

Record CXTranslationUnit : Type := {
  tu_diagnostics : list CXDiagnostic;
  tu_cursor : CXCursor
}.

Definition zeroed_location : CXSourceLocation :=
  {| loc_file_name := ""; loc_line := 0; loc_column := 0; loc_offset := 0 |}.

(** [ParseH parse_h = {0}], on an empty stream. *)
Definition zeroed_ParseH : ParseH :=
  {| f := ""; fn_list := []; cur_fn := None; arg_index := 0; cur_indent := 0;
     range := {| range_start := zeroed_location; range_end := zeroed_location |};
     location := zeroed_location |}.

Definition initial_world : World := {| parse_h := zeroed_ParseH; stderr := [] |}.

Fixpoint report_diagnostics (ds : list CXDiagnostic) : M unit :=
  match ds with
  | [] => ret tt
  | d :: ds' =>
      let l := diag_location d in
      fprintf_stderr (loc_file_name l ++ " line " ++ fmt_u (loc_line l)
                      ++ ", column " ++ fmt_u (loc_column l) ++ ": "
                      ++ diag_spelling d ++ nl) ;;;
      report_diagnostics ds'
  end.

Section ParseHFile.

(** The process environment and the parser of libclang.  [parse_h_file]
    starts from a zero-filled [ParseH] that writes to the stream it is
    given, and hands back the argument list it has extended. *)
Variable getenv : string -> option string.
Variable clang_parseTranslationUnit2 :
  string -> list (option string) -> nat -> nat + CXTranslationUnit.

Definition parse_h_file (target_path : string)
    (clang_argv : list (option string)) : M (list (option string)) :=
  modify_p (fun p => set_f (f p) zeroed_ParseH) ;;;
  let clang_argv := append_cflags (getenv "ZIG_PARSEH_CFLAGS") clang_argv in
  match clang_parseTranslationUnit2 target_path clang_argv
          (List.length clang_argv - 1) with
  | inl _ => zig_panic "parse translation unit failure"
  | inr tu =>
      match tu_diagnostics tu with
      | _ :: _ => report_diagnostics (tu_diagnostics tu) ;;; throw (Abort_exit 1)
      | [] =>
          clang_visitChildren (tu_cursor tu) fn_visitor ;;;
          end_fn ;;;
          emit ;;;
          ret clang_argv
      end
  end.

End ParseHFile.

(** ** Sample types and cursors *)

Module Sample.

Definition scalar (kind : CXTypeKind) (spelling : string) (q : bool) : CXType :=
  CXType_of kind spelling q CXType_none CXType_none CXType_none (-1) CXType_none.

Definition pointer (spelling : string) (pointee : CXType) : CXType :=
  CXType_of CXType_Pointer spelling false CXType_none pointee CXType_none (-1)
    CXType_none.

Definition incomplete_array (spelling : string) (element : CXType) : CXType :=
  CXType_of CXType_IncompleteArray spelling false CXType_none CXType_none element
    (-1) CXType_none.

Definition constant_array (spelling : string) (element : CXType) (n : Z) : CXType :=
  CXType_of CXType_ConstantArray spelling false CXType_none CXType_none element
    n CXType_none.

Definition typedef (spelling : string) (q : bool) (underlying : CXType) : CXType :=
  CXType_of CXType_Typedef spelling q CXType_none CXType_none CXType_none (-1)
    underlying.

Definition int_type : CXType := scalar CXType_Int "int" false.
Definition const_int_type : CXType := scalar CXType_Int "const int" true.
Definition double_type : CXType := scalar CXType_Double "double" false.
Definition ulong_type : CXType := scalar CXType_ULong "unsigned long" false.
Definition int32_t_type : CXType := typedef "int32_t" false int_type.
Definition const_uint8_t_type : CXType :=
  typedef "const uint8_t" true (scalar CXType_UChar "unsigned char" false).

Definition at_line (line : N) : CXSourceRange :=
  {| range_start := {| loc_file_name := "sample.h"; loc_line := line;
                       loc_column := 1; loc_offset := 0 |};
     range_end := {| loc_file_name := "sample.h"; loc_line := line;
                     loc_column := 40; loc_offset := 39 |} |}.

(** The type of a cursor that is not a function declaration. *)
Definition no_function_type : CXFunctionType :=
  {| fn_variadic := false; fn_calling_conv := CXCallingConv_Invalid;
     fn_result_type := CXType_none; fn_arg_types := [] |}.

Definition parm (line : N) (name : string) : CXCursor :=
  Cursor CXCursor_ParmDecl name (at_line line) CX_SC_None no_function_type [].

Definition function (line : N) (name : string) (storage_class : CX_StorageClass)
    (variadic : bool) (result : CXType) (params : list (string * CXType))
  : CXCursor :=
  Cursor CXCursor_FunctionDecl name (at_line line) storage_class
    {| fn_variadic := variadic; fn_calling_conv := CXCallingConv_C;
       fn_result_type := result; fn_arg_types := map snd params |}
    (map (fun p => parm line (fst p)) params).

(** [int32_t add(int32_t a, int32_t b);] *)
Definition add_decl : CXCursor :=
  function 1 "add" CX_SC_None false int32_t_type
    [("a", int32_t_type); ("b", int32_t_type)].

(** [static int helper(const char *fmt, ...);] *)
Definition helper_decl : CXCursor :=
  function 2 "helper" CX_SC_Static true int_type
    [("fmt", pointer "const char *" (scalar CXType_Char_S "const char" true))].

(** [extern int printf(const char *fmt, ...);] *)
Definition printf_decl : CXCursor :=
  function 3 "printf" CX_SC_Extern true int_type
    [("fmt", pointer "const char *" (scalar CXType_Char_S "const char" true))].

(** [void log(const uint8_t *msg);] *)
Definition log_decl : CXCursor :=
  function 4 "log" CX_SC_None false (scalar CXType_Void "void" false)
    [("msg", pointer "const uint8_t *" const_uint8_t_type)].

Definition header : list CXCursor := [add_decl; helper_decl; printf_decl; log_decl].

(** [int __stdcall beep(int freq);] *)
Definition stdcall_decl : CXCursor :=
  Cursor CXCursor_FunctionDecl "beep" (at_line 5) CX_SC_None
    {| fn_variadic := false; fn_calling_conv := CXCallingConv_X86StdCall;
       fn_result_type := int_type; fn_arg_types := [int_type] |}
    [parm 5 "freq"].

(** [extern void ( *handler)(int sig);]: a variable of function-pointer
    type, whose parameter declaration is a child of the variable
    declaration. *)
Definition handler_decl : CXCursor :=
  Cursor CXCursor_VarDecl "handler" (at_line 9) CX_SC_Extern no_function_type
    [parm 9 "sig"].

(** [typedef void ( *handler_t)(int sig);] *)
Definition handler_typedef : CXCursor :=
  Cursor CXCursor_TypedefDecl "handler_t" (at_line 10) CX_SC_Invalid no_function_type
    [parm 10 "sig"].

(** The field of [struct ops { void ( *handler)(int sig); };] *)
Definition handler_field : CXCursor :=
  Cursor CXCursor_FieldDecl "handler" (at_line 11) CX_SC_Invalid no_function_type
    [parm 11 "sig"].

End Sample.

(** * What the program is expected to do *)

(** The fixed-width integer aliases and their sized integer types. *)
Definition fixed_width_aliases : list (string * string) :=
  [("int8_t", "i8"); ("int16_t", "i16"); ("int32_t", "i32"); ("int64_t", "i64");
   ("uint8_t", "u8"); ("uint16_t", "u16"); ("uint32_t", "u32"); ("uint64_t", "u64")].

(** The plain C integer kinds and the names of their types. *)
Definition c_integer_kinds : list (CXTypeKind * string) :=
  [(CXType_Short, "c_short"); (CXType_UShort, "c_ushort");
   (CXType_Int, "c_int"); (CXType_UInt, "c_uint");
   (CXType_Long, "c_long"); (CXType_ULong, "c_ulong");
   (CXType_LongLong, "c_longlong"); (CXType_ULongLong, "c_ulonglong")].

(** The segments of a string between its spaces: one more than it has
    spaces, empty where two spaces meet or the string starts or ends with
    one. *)
Fixpoint segments (s : string) : list string :=
  match s with
  | EmptyString => [""]
  | String c s' =>
      if Ascii.eqb c " "%char then "" :: segments s'
      else match segments s' with
           | seg :: segs => String c seg :: segs
           | [] => [String c ""]
           end
  end.

Definition nonempty (s : string) : bool :=
  match s with EmptyString => false | String _ _ => true end.

(** The segment after the last space. *)
Definition last_segment (s : string) : string := last (segments s) "".

(** The tokens of a flag string: the non-empty segments in front of a
    space, then the last segment. *)
Definition flag_tokens (s : string) : list string :=
  (filter nonempty (removelast (segments s)) ++ [last_segment s])%list.

(** One argument and one function line as the emitter's contract writes
    them, and the whole block. *)
Definition render_arg (a : Arg) : string := arg_name a ++ ": " ++ arg_type a.

Definition render_fn (fn : Fn) : string :=
  "    " ++ "fn " ++ fn_name fn ++ "("
  ++ String.concat ", " (map render_arg (args fn)) ++ ")"
  ++ (if String.eqb (return_type fn) "void" then "" else " -> " ++ return_type fn)
  ++ ";" ++ nl.

Definition extern_block (fns : list Fn) : string :=
  "extern {" ++ nl ++ fold_right (fun fn rest => render_fn fn ++ rest) ("}" ++ nl) fns.

(** ** Well-formed translation units

    What the collector relies on in the tree it is shown.  The parameter
    declarations it reaches are children of a function declaration it
    accepted, as many as that function's type has parameters; the other
    children of such a declaration (attributes, the body, references to
    types) hold no function or parameter declaration it would reach. *)

Definition is_ParmDecl (c : CXCursor) : bool :=
  match clang_getCursorKind c with CXCursor_ParmDecl => true | _ => false end.

Definition exportable (storage_class : CX_StorageClass) : bool :=
  match storage_class with
  | CX_SC_None | CX_SC_Extern | CX_SC_Auto => true
  | _ => false
  end.

(** The function declarations the collector turns into an [Fn]. *)
Definition accepted (c : CXCursor) : bool :=
  match clang_getCursorKind c with
  | CXCursor_FunctionDecl =>
      exportable (clang_Cursor_getStorageClass c)
      && negb (clang_isFunctionTypeVariadic (clang_getCursorType c))
      && is_calling_conv_C (clang_getFunctionTypeCallingConv (clang_getCursorType c))
  | _ => false
  end.

Fixpoint param_free (c : CXCursor) : bool :=
  match c with
  | Cursor kind _ _ _ _ children =>
      match kind with
      | CXCursor_FunctionDecl | CXCursor_ParmDecl => false
      | CXCursor_UnexposedAttr | CXCursor_CompoundStmt | CXCursor_FieldDecl
      | CXCursor_TypedefDecl => true
      | _ => forallb param_free children
      end
  end.

Definition parm_names (children : list CXCursor) : list string :=
  map clang_getCursorSpelling (filter is_ParmDecl children).

Fixpoint well_formed (c : CXCursor) : bool :=
  match c with
  | Cursor kind _ _ _ _ children =>
      match kind with
      | CXCursor_ParmDecl => false
      | CXCursor_UnexposedAttr | CXCursor_CompoundStmt | CXCursor_FieldDecl
      | CXCursor_TypedefDecl => true
      | CXCursor_FunctionDecl =>
          if accepted c then
            Nat.eqb (List.length (parm_names children))
                    (clang_getNumArgTypes (clang_getCursorType c))
            && forallb (fun child => is_ParmDecl child || param_free child) children
          else true
      | _ => forallb well_formed children
      end
  end.

(** The accepted function declarations in the order the traversal meets
    them. *)
Fixpoint declared (c : CXCursor) : list CXCursor :=
  match c with
  | Cursor kind _ _ _ _ children =>
      match kind with
      | CXCursor_ParmDecl | CXCursor_UnexposedAttr | CXCursor_CompoundStmt
      | CXCursor_FieldDecl | CXCursor_TypedefDecl => []
      | CXCursor_FunctionDecl => if accepted c then [c] else []
      | _ => flat_map declared children
      end
  end.

(** [to_zig_type] gives [T] for the type. *)
Definition classified (t : CXType) (T : Buf) : Prop :=
  exists w w', to_zig_type t w = Done T w'.

Definition classifiable (t : CXType) : Prop := exists T, classified t T.

(** The [Fn] collected for an accepted declaration: its name, its
    classified return type, and per parameter of its type the name of the
    parameter declaration of that position with the classified type. *)
Definition fn_matches (c : CXCursor) (fn : Fn) : Prop :=
  fn_name fn = clang_getCursorSpelling c /\
  classified (clang_getResultType (clang_getCursorType c)) (return_type fn) /\
  List.length (args fn) = clang_getNumArgTypes (clang_getCursorType c) /\
  map arg_name (args fn) = parm_names (cursor_children c) /\
  Forall2 classified (fn_arg_types (clang_getCursorType c)) (map arg_type (args fn)).

(** Every function declaration the traversal meets has a storage class,
    and the types of the accepted ones can be classified. *)
Fixpoint translatable (c : CXCursor) : Prop :=
  match c with
  | Cursor kind _ _ storage_class type children =>
      match kind with
      | CXCursor_ParmDecl | CXCursor_UnexposedAttr | CXCursor_CompoundStmt
      | CXCursor_FieldDecl | CXCursor_TypedefDecl => True
      | CXCursor_FunctionDecl =>
          storage_class <> CX_SC_Invalid /\
          (accepted c = true ->
           classifiable (clang_getResultType type) /\
           Forall classifiable (fn_arg_types type))
      | _ =>
          (fix all (cs : list CXCursor) : Prop :=
             match cs with
             | [] => True
             | c' :: cs' => translatable c' /\ all cs'
             end) children
      end
  end.

Fixpoint all_translatable (cs : list CXCursor) : Prop :=
  match cs with
  | [] => True
  | c :: cs' => translatable c /\ all_translatable cs'
  end.

Definition is_assert (e : abort) : bool :=
  match e with Abort_assert _ => true | _ => false end.

(** Every function that was current or finished, in the order they were
    begun. *)
Definition collected (p : ParseH) : list Fn :=
  (fn_list p ++ match cur_fn p with Some fn => [fn] | None => [] end)%list.

(** An argument whose type is known and whose name is not yet, and one
    with both. *)
Definition typed (T : Buf) : Arg := {| arg_name := ""; arg_type := T |}.
Definition named (name_type : string * Buf) : Arg :=
  {| arg_name := fst name_type; arg_type := snd name_type |}.

(** The argument array of a function with parameter types [tys] once the
    names [names] of its first parameters have been recorded. *)
Definition args_of (names : list string) (tys : list Buf) : list Arg :=
  (map named (combine names (firstn (List.length names) tys))
   ++ map typed (skipn (List.length names) tys))%list.

(** Two states of the collector that differ at most in the recorded
    location. *)
Definition same_collector_state (p p' : ParseH) : Prop :=
  f p' = f p /\ fn_list p' = fn_list p /\ cur_fn p' = cur_fn p /\
  arg_index p' = arg_index p /\ cur_indent p' = cur_indent p.

(** ** States the proofs speak of *)

(** The state after [text] has been written to the output stream. *)
Definition written (text : string) (w : World) : World :=
  {| parse_h := set_f (f (parse_h w) ++ text) (parse_h w); stderr := stderr w |}.

(** [n] spaces. *)
Fixpoint spaces (n : nat) : string :=
  match n with O => "" | S n' => " " ++ spaces n' end.

(** The state once [fn_visitor] has recorded where [cursor] is. *)
Definition at_cursor (cursor : CXCursor) (w : World) : World :=
  {| parse_h :=
       set_location (clang_getRangeStart (clang_getCursorExtent cursor))
         (set_range (clang_getCursorExtent cursor) (parse_h w));
     stderr := stderr w |}.

(** The state after one location-tagged warning about [cursor]. *)
Definition warned (cursor : CXCursor) (warning : string) (w : World) : World :=
  {| parse_h := parse_h (at_cursor cursor w);
     stderr :=
       (stderr w
        ++ [location_line (clang_getRangeStart (clang_getCursorExtent cursor));
            warning])%list |}.

(** What a visit of a well-formed subtree leaves behind. *)
Definition visited (cs : list CXCursor) (ok : Prop) (w : World) (r : outcome bool)
  : Prop :=
  match r with
  | Done broken w' =>
      broken = false /\
      f (parse_h w') = f (parse_h w) /\
      cur_indent (parse_h w') = cur_indent (parse_h w) /\
      exists fns,
        collected (parse_h w') = (collected (parse_h w) ++ fns)%list /\
        Forall2 fn_matches cs fns
  | Aborted e _ => is_assert e = false /\ ~ ok
  end.

(** ** What the further properties speak of *)

(** Whether a space occurs in the string. *)
Fixpoint has_space (s : string) : bool :=
  match s with
  | EmptyString => false
  | String c s' => Ascii.eqb c " "%char || has_space s'
  end.

(** The qualifiers [quals], first one outermost, written in front of
    [name]. *)
Definition qualified (quals : list string) (name : string) : string :=
  fold_right String.append name quals.

(** The state after [lines] have been written to the error stream. *)
Definition erred (lines : list string) (w : World) : World :=
  {| parse_h := parse_h w; stderr := (stderr w ++ lines)%list |}.

(** How a call ends: with a value or with an abort. *)
Definition finish {A} (r : A + abort) (w : World) : outcome A :=
  match r with
  | inl a => Done a w
  | inr e => Aborted e w
  end.

(** The scalar kinds besides the plain integers, with their types. *)
Definition scalar_kinds : list (CXTypeKind * string) :=
  [(CXType_Void, "void"); (CXType_Bool, "bool"); (CXType_SChar, "i8");
   (CXType_Char_U, "u8"); (CXType_Char_S, "u8"); (CXType_UChar, "u8");
   (CXType_Float, "f32"); (CXType_Double, "f64"); (CXType_LongDouble, "f128")].

(** The kinds that have no translation yet, with the message of the
    panic. *)
Definition todo_kinds : list (CXTypeKind * string) :=
  [(CXType_WChar, "TODO wchar"); (CXType_Char16, "TODO char16");
   (CXType_Char32, "TODO char32"); (CXType_UInt128, "TODO uint128");
   (CXType_Int128, "TODO int128");
   (CXType_FunctionNoProto, "TODO function no proto");
   (CXType_BlockPointer, "TODO block pointer"); (CXType_Vector, "TODO vector");
   (CXType_LValueReference, "TODO"); (CXType_RValueReference, "TODO");
   (CXType_VariableArray, "TODO"); (CXType_DependentSizedArray, "TODO");
   (CXType_MemberPointer, "TODO"); (CXType_ObjCInterface, "TODO");
   (CXType_ObjCObjectPointer, "TODO"); (CXType_NullPtr, "TODO");
   (CXType_Overload, "TODO"); (CXType_Dependent, "TODO");
   (CXType_ObjCId, "TODO"); (CXType_ObjCClass, "TODO");
   (CXType_ObjCSel, "TODO"); (CXType_Complex, "TODO")].

(** A function's line behind [indent] spaces, and the block with every
    line so indented. *)
Definition render_fn_at (indent : nat) (fn : Fn) : string :=
  spaces indent ++ "fn " ++ fn_name fn ++ "("
  ++ String.concat ", " (map render_arg (args fn)) ++ ")"
  ++ (if String.eqb (return_type fn) "void" then "" else " -> " ++ return_type fn)
  ++ ";" ++ nl.

Definition extern_block_at (indent : nat) (fns : list Fn) : string :=
  "extern {" ++ nl
  ++ fold_right (fun fn rest => render_fn_at indent fn ++ rest) ("}" ++ nl) fns.

(** The state [emit] leaves when there is a function to write. *)
Definition emitted (w : World) : World :=
  {| parse_h :=
       set_f (f (parse_h w)
              ++ extern_block_at (cur_indent (parse_h w) + indent_size)
                   (fn_list (parse_h w)))
         (set_cur_indent (cur_indent (parse_h w) + indent_size) (parse_h w));
     stderr := stderr w |}.

(** The line written for a diagnostic. *)
Definition diagnostic_line (d : CXDiagnostic) : string :=
  loc_file_name (diag_location d) ++ " line " ++ fmt_u (loc_line (diag_location d))
  ++ ", column " ++ fmt_u (loc_column (diag_location d)) ++ ": "
  ++ diag_spelling d ++ nl.

(** The state [parse_h_file] works on: a fresh [ParseH] on the caller's
    stream. *)
Definition fresh (w : World) : World :=
  {| parse_h := set_f (f (parse_h w)) zeroed_ParseH; stderr := stderr w |}.

(** * Properties *)

(** ** Name cleaning *)

Lemma strip_c_name_found c_name prefix :
  first_prefix prefixes c_name = Some prefix ->
  strip_c_name c_name = strip_c_name (CStr.advance (CStr.strlen prefix) c_name).
Proof.
  intros H. rewrite strip_c_name_equation_1 at 1.
  destruct (Logic.inspect (first_prefix prefixes c_name)) as [[q|] E]; cbn.
  - congruence.
  - congruence.
Qed.

Lemma strip_c_name_clean c_name :
  first_prefix prefixes c_name = None -> strip_c_name c_name = c_name.
Proof.
  intros H. rewrite strip_c_name_equation_1.
  destruct (Logic.inspect (first_prefix prefixes c_name)) as [[q|] E]; cbn.
  - congruence.
  - reflexivity.
Qed.

(** Induction along the [goto start_over] jumps. *)
Lemma strip_c_name_ind (P : string -> Prop) :
  (forall c_name, first_prefix prefixes c_name = None -> P c_name) ->
  (forall c_name prefix,
      first_prefix prefixes c_name = Some prefix ->
      P (CStr.advance (CStr.strlen prefix) c_name) -> P c_name) ->
  forall c_name, P c_name.
Proof.
  intros Hclean Hstep c_name.
  remember (String.length c_name) as n eqn:Hn.
  revert c_name Hn.
  induction n as [n IH] using lt_wf_ind; intros c_name ->.
  destruct (first_prefix prefixes c_name) as [prefix|] eqn:E.
  - apply (Hstep _ _ E). eapply IH; [|reflexivity].
    apply first_prefix_shrinks; assumption.
  - apply Hclean; assumption.
Qed.

Lemma first_prefix_none ps c_name :
  first_prefix ps c_name = None <->
  (forall prefix, In prefix ps -> str_has_prefix c_name prefix = false).
Proof.
  induction ps as [|p ps IH]; simpl.
  - split; [intros _ ? []|reflexivity].
  - destruct (str_has_prefix c_name p) eqn:E.
    + split; [discriminate|]. intros H. rewrite (H p) in E; auto; discriminate.
    + rewrite IH. split.
      * intros H q [<-|Hq]; auto.
      * intros H q Hq. apply H; auto.
Qed.

Lemma strip_c_name_result_clean c_name :
  first_prefix prefixes (strip_c_name c_name) = None.
Proof.
  induction c_name as [c_name H|c_name prefix H IH] using strip_c_name_ind.
  - rewrite strip_c_name_clean; assumption.
  - rewrite (strip_c_name_found _ _ H). exact IH.
Qed.

(** The prefixes removed from [c_name], in the order of their removal:
    put back in front of the result they give [c_name] again. *)
Lemma strip_c_name_removed c_name :
  exists removed,
    Forall (fun q => In q prefixes) removed /\
    c_name = fold_right String.append (strip_c_name c_name) removed.
Proof.
  induction c_name as [c_name H|c_name prefix H IH] using strip_c_name_ind.
  - exists []. rewrite strip_c_name_clean by assumption. simpl. auto.
  - destruct IH as (removed & Hall & Heq).
    destruct (first_prefix_in _ _ _ H) as [Hin Hp].
    destruct (str_has_prefix_app _ _ Hp) as [rest ->].
    exists (prefix :: removed). split; [constructor; assumption|].
    rewrite (strip_c_name_found _ _ H).
    unfold CStr.strlen in *. rewrite CStr.advance_append in *.
    simpl. f_equal. exact Heq.
Qed.

(** C7: [prefixes_stripped] removes, as long as one matches, the first
    entry of the table [struct ], [enum ], [const ] that is a prefix of the
    name and starts over; what it returns is the name without the removed
    prefixes and starts with none of the three.  So [const struct Foo]
    becomes [Foo], a name that starts with none of the three is returned
    unchanged, and cleaning a cleaned name changes nothing. *)
Theorem prefixes_stripped_idempotent :
  (forall c_name prefix,
      first_prefix prefixes c_name = Some prefix ->
      strip_c_name c_name
      = strip_c_name (CStr.advance (CStr.strlen prefix) c_name)) /\
  (forall c_name,
      exists removed,
        Forall (fun q => In q prefixes) removed /\
        c_name = fold_right String.append (strip_c_name c_name) removed) /\
  (forall c_name prefix,
      In prefix prefixes -> str_has_prefix (strip_c_name c_name) prefix = false) /\
  strip_c_name "const struct Foo" = "Foo" /\
  (forall c_name,
      (forall prefix, In prefix prefixes -> str_has_prefix c_name prefix = false) ->
      strip_c_name c_name = c_name) /\
  (forall c_name, strip_c_name (strip_c_name c_name) = strip_c_name c_name) /\
  (forall type,
      prefixes_stripped type = strip_c_name (clang_getTypeSpelling type)).
Proof.
  split; [exact strip_c_name_found|].
  split; [exact strip_c_name_removed|].
  split.
  { intros c_name prefix Hin.
    exact (proj1 (first_prefix_none _ _) (strip_c_name_result_clean c_name) _ Hin). }
  split; [reflexivity|].
  split.
  { intros c_name H. apply strip_c_name_clean, first_prefix_none, H. }
  split; [|reflexivity].
  intros c_name. apply strip_c_name_clean, strip_c_name_result_clean.
Qed.

Lemma prefixes_stripped_idempotent_witness :
  strip_c_name "enum Color" = strip_c_name "Color" /\
  strip_c_name "Foo" = "Foo".
Proof.
  destruct prefixes_stripped_idempotent as (Hstep & _ & _ & _ & Hclean & _).
  split.
  - apply (Hstep "enum Color" "enum "). reflexivity.
  - apply (Hclean "Foo").
    intros prefix [<-|[<-|[<-|[]]]]; reflexivity.
Defined.

(** ** The type classifier *)

Lemma typedef_shortcut_alias alias sized :
  In (alias, sized) fixed_width_aliases -> typedef_shortcut alias = Some sized.
Proof.
  unfold fixed_width_aliases; simpl.
  intros H; repeat (destruct H as [H|H]; [inversion H; reflexivity|]).
  contradiction.
Qed.

Lemma typedef_shortcut_other name :
  (forall alias sized, In (alias, sized) fixed_width_aliases -> name <> alias) ->
  typedef_shortcut name = None.
Proof.
  intros H. unfold typedef_shortcut.
  repeat match goal with
         | |- context [String.eqb name ?a] =>
             destruct (String.eqb_spec name a) as [E|_];
             [exfalso; eapply H; [|exact E]; simpl; tauto|]
         end.
  reflexivity.
Qed.

(** C2: a typedef whose cleaned spelling is one of the eight fixed-width
    aliases classifies as the sized integer type of that alias, whatever
    the typedef stands for; a typedef with any other cleaned spelling
    classifies as its underlying type does. *)
Theorem typedef_shortcut_by_name (raw_type : CXType) :
  type_kind raw_type = CXType_Typedef ->
  (forall alias sized,
      In (alias, sized) fixed_width_aliases ->
      prefixes_stripped raw_type = alias ->
      forall w, to_zig_type raw_type w = Done sized w) /\
  (forall spelling q canonical pointee element size underlying w,
      to_zig_type (CXType_of CXType_Typedef "uint32_t" q canonical pointee
                     element size underlying) w = Done "u32" w /\
      to_zig_type (CXType_of CXType_Typedef spelling q canonical pointee
                     element size underlying) w
      = match typedef_shortcut (strip_c_name spelling) with
        | Some sized => Done sized w
        | None => to_zig_type underlying w
        end) /\
  ((forall alias sized,
       In (alias, sized) fixed_width_aliases -> prefixes_stripped raw_type <> alias) ->
   forall w,
     to_zig_type raw_type w
     = to_zig_type (clang_getTypedefUnderlyingType raw_type) w).
Proof.
  intros Hkind.
  destruct raw_type as [|kind spelling q canonical pointee element size underlying];
    simpl in Hkind; [discriminate|subst kind].
  split; [|split].
  - intros alias sized Hin Hname w. simpl.
    rewrite Hname, (typedef_shortcut_alias _ _ Hin). reflexivity.
  - intros sp q' c' p' e' n' u' w. split; [reflexivity|].
    simpl. unfold prefixes_stripped; simpl.
    destruct (typedef_shortcut (strip_c_name sp)); reflexivity.
  - intros Hother w. simpl.
    rewrite (typedef_shortcut_other _ Hother). reflexivity.
Qed.

Lemma typedef_shortcut_by_name_witness :
  to_zig_type (Sample.typedef "const uint32_t" true Sample.double_type) initial_world
  = Done "u32" initial_world /\
  to_zig_type (Sample.typedef "size_t" false Sample.ulong_type) initial_world
  = Done "c_ulong" initial_world.
Proof.
  split.
  - apply (proj1 (typedef_shortcut_by_name
                    (Sample.typedef "const uint32_t" true Sample.double_type)
                    eq_refl) "uint32_t" "u32").
    + simpl. tauto.
    + reflexivity.
  - rewrite (proj2 (proj2 (typedef_shortcut_by_name
               (Sample.typedef "size_t" false Sample.ulong_type) eq_refl))).
    + reflexivity.
    + intros alias sized Hin.
      simpl in Hin.
      repeat (destruct Hin as [Hin|Hin]; [inversion Hin; subst; discriminate|]).
      contradiction.
Defined.

(** C6: a pointer classifies its pointee and puts [*const ] in front of the
    result when the pointee is const-qualified and [*mut ] otherwise (an
    abort of the pointee's classification is the pointer's); an incomplete
    array does the same with its element type, so both classify alike over
    the same type. *)
Theorem pointer_and_incomplete_array (raw_type : CXType) (w : World) :
  (type_kind raw_type = CXType_Pointer ->
   let pointee_type := clang_getPointeeType raw_type in
   to_zig_type raw_type w
   = match to_zig_type pointee_type w with
     | Done T w' =>
         Done (if clang_isConstQualifiedType pointee_type
               then "*const " ++ T else "*mut " ++ T) w'
     | Aborted e w' => Aborted e w'
     end) /\
  (type_kind raw_type = CXType_IncompleteArray ->
   let element_type := clang_getArrayElementType raw_type in
   to_zig_type raw_type w
   = match to_zig_type element_type w with
     | Done T w' =>
         Done (if clang_isConstQualifiedType element_type
               then "*const " ++ T else "*mut " ++ T) w'
     | Aborted e w' => Aborted e w'
     end) /\
  (forall array_type,
      type_kind raw_type = CXType_Pointer ->
      type_kind array_type = CXType_IncompleteArray ->
      clang_getArrayElementType array_type = clang_getPointeeType raw_type ->
      to_zig_type array_type w = to_zig_type raw_type w).
Proof.
  split; [|split].
  - destruct raw_type as [|kind sp q c p e n u]; simpl; [discriminate|].
    intros ->. simpl. unfold bind, ret, pointer_to.
    destruct (to_zig_type p w); reflexivity.
  - destruct raw_type as [|kind sp q c p e n u]; simpl; [discriminate|].
    intros ->. simpl. unfold bind, ret, pointer_to.
    destruct (to_zig_type e w); reflexivity.
  - intros array_type Hp Ha Heq.
    destruct raw_type as [|kind sp q c p e n u]; simpl in Hp; [discriminate|].
    destruct array_type as [|kind' sp' q' c' p' e' n' u']; simpl in Ha; [discriminate|].
    subst. simpl in Heq. subst. reflexivity.
Qed.

Lemma pointer_and_incomplete_array_witness :
  to_zig_type (Sample.pointer "int *" Sample.int_type) initial_world
  = Done "*mut c_int" initial_world /\
  to_zig_type (Sample.incomplete_array "const int []" Sample.const_int_type)
    initial_world
  = Done "*const c_int" initial_world.
Proof.
  split.
  - rewrite (proj1 (pointer_and_incomplete_array
                      (Sample.pointer "int *" Sample.int_type) initial_world)
               eq_refl).
    reflexivity.
  - rewrite (proj1 (proj2 (pointer_and_incomplete_array
                      (Sample.incomplete_array "const int []" Sample.const_int_type)
                      initial_world)) eq_refl).
    reflexivity.
Defined.

Lemma to_long_small (z : Z) :
  (- 2 ^ 63 <= z < 2 ^ 63)%Z -> to_long z = z.
Proof.
  intros H. unfold to_long. rewrite Z.mod_small; lia.
Qed.

(** What [%ld] prints is the decimal numeral of the number: read as one, it
    gives the number back. *)
Lemma fmt_ld_reads_back (z : Z) :
  option_map Z.of_int (NilZero.int_of_string (fmt_ld z)) = Some z.
Proof.
  unfold fmt_ld. rewrite NilZero.isi.
  - simpl. f_equal. apply DecimalZ.of_to.
  - destruct z; simpl; try discriminate.
    intros H; inversion H as [H']. exact (DecimalPos.Unsigned.to_uint_nonnil _ H').
  - destruct z; simpl; try discriminate.
    intros H; inversion H as [H']. exact (DecimalPos.Unsigned.to_uint_nonnil _ H').
Qed.

(** C8: a constant array with element count [N], [0 <= N] (a [long long]),
    whose element type classifies as [T], classifies as [[T; N]] with [N]
    in decimal; [N = 0] gives [[T; 0]], and four elements that classify as
    [i32] give [[i32; 4]]. *)
Theorem constant_array_expression (raw_type : CXType) (w w' : World) (T : Buf) :
  type_kind raw_type = CXType_ConstantArray ->
  (0 <= clang_getArraySize raw_type < 2 ^ 63)%Z ->
  to_zig_type (clang_getArrayElementType raw_type) w = Done T w' ->
  let N := clang_getArraySize raw_type in
  to_zig_type raw_type w = Done ("[" ++ T ++ "; " ++ fmt_ld N ++ "]") w' /\
  option_map Z.of_int (NilZero.int_of_string (fmt_ld N)) = Some N /\
  (N = 0%Z -> to_zig_type raw_type w = Done ("[" ++ T ++ "; 0]") w') /\
  (N = 4%Z -> T = "i32" -> to_zig_type raw_type w = Done "[i32; 4]" w').
Proof.
  intros Hkind Hsize Helem N.
  assert (Hrun : to_zig_type raw_type w = Done ("[" ++ T ++ "; " ++ fmt_ld N ++ "]") w').
  { destruct raw_type as [|kind sp q c p e n u]; simpl in *; [discriminate|].
    subst kind. simpl. unfold bind. rewrite Helem. unfold ret.
    rewrite to_long_small by lia. reflexivity. }
  split; [exact Hrun|].
  split; [apply fmt_ld_reads_back|].
  split.
  - intros H0. rewrite Hrun, H0. reflexivity.
  - intros H4 ->. rewrite Hrun, H4. reflexivity.
Qed.

Lemma constant_array_expression_witness :
  to_zig_type (Sample.constant_array "int32_t [4]" Sample.int32_t_type 4) initial_world
  = Done "[i32; 4]" initial_world /\
  to_zig_type (Sample.constant_array "double [0]" Sample.double_type 0) initial_world
  = Done "[f64; 0]" initial_world.
Proof.
  split.
  - apply (constant_array_expression
             (Sample.constant_array "int32_t [4]" Sample.int32_t_type 4)
             initial_world initial_world "i32").
    + reflexivity.
    + simpl. lia.
    + reflexivity.
    + reflexivity.
    + reflexivity.
  - apply (constant_array_expression
             (Sample.constant_array "double [0]" Sample.double_type 0)
             initial_world initial_world "f64").
    + reflexivity.
    + simpl. lia.
    + reflexivity.
    + reflexivity.
Defined.

(** C10: [short], [unsigned short], [int], [unsigned int], [long],
    [unsigned long], [long long] and [unsigned long long] classify as
    [c_short], [c_ushort], [c_int], [c_uint], [c_long], [c_ulong],
    [c_longlong] and [c_ulonglong]; a pointer to [const int] therefore
    classifies as [*const c_int], which is not [*const i32]. *)
Theorem c_integer_kinds_named (raw_type : CXType) (w : World) :
  (forall kind name,
      In (kind, name) c_integer_kinds ->
      type_kind raw_type = kind ->
      to_zig_type raw_type w = Done name w) /\
  (type_kind raw_type = CXType_Pointer ->
   type_kind (clang_getPointeeType raw_type) = CXType_Int ->
   clang_isConstQualifiedType (clang_getPointeeType raw_type) = true ->
   to_zig_type raw_type w = Done "*const c_int" w /\
   to_zig_type raw_type w <> Done "*const i32" w).
Proof.
  split.
  - intros kind name Hin Hkind.
    destruct raw_type as [|k sp q c p e n u]; simpl in Hkind.
    + subst kind. simpl in Hin.
      repeat (destruct Hin as [Hin|Hin]; [discriminate|]). contradiction.
    + subst k. simpl in Hin.
      repeat (destruct Hin as [Hin|Hin]; [inversion Hin; subst; reflexivity|]).
      contradiction.
  - intros Hkind Hpointee Hconst.
    destruct raw_type as [|k sp q c p e n u]; simpl in *; [discriminate|subst k].
    destruct p as [|k' sp' q' c' p' e' n' u']; simpl in *; [discriminate|subst k' q'].
    split; [reflexivity|]. simpl. discriminate.
Qed.

Lemma c_integer_kinds_named_witness :
  to_zig_type Sample.ulong_type initial_world = Done "c_ulong" initial_world /\
  to_zig_type (Sample.pointer "const int *" Sample.const_int_type) initial_world
  = Done "*const c_int" initial_world.
Proof.
  split.
  - apply (proj1 (c_integer_kinds_named Sample.ulong_type initial_world)
             CXType_ULong "c_ulong").
    + simpl. tauto.
    + reflexivity.
  - apply (proj2 (c_integer_kinds_named
                    (Sample.pointer "const int *" Sample.const_int_type)
                    initial_world)); reflexivity.
Defined.

(** ** Compiler flags *)

Lemma split_cflags_space start clang_argv before from :
  CStr.strstr_space start = Some (before, from) ->
  split_cflags start clang_argv
  = split_cflags (CStr.advance 1 from)
      (if Nat.ltb 0 (String.length before)
       then (clang_argv ++ [Some before])%list else clang_argv).
Proof.
  intros H. rewrite split_cflags_equation_1 at 1.
  destruct (Logic.inspect (CStr.strstr_space start)) as [[[b fr]|] E]; cbn.
  - rewrite H in E. inversion E; subst. reflexivity.
  - congruence.
Qed.

Lemma split_cflags_no_space start clang_argv :
  CStr.strstr_space start = None ->
  split_cflags start clang_argv = (clang_argv ++ [Some start])%list.
Proof.
  intros H. rewrite split_cflags_equation_1.
  destruct (Logic.inspect (CStr.strstr_space start)) as [[[b fr]|] E]; cbn.
  - congruence.
  - reflexivity.
Qed.

Lemma segments_not_nil s : segments s <> [].
Proof.
  destruct s as [|c s]; simpl; [discriminate|].
  destruct (Ascii.eqb c " "%char); [discriminate|].
  destruct (segments s); discriminate.
Qed.

Lemma segments_no_space s :
  CStr.strstr_space s = None -> segments s = [s].
Proof.
  induction s as [|c s IH]; simpl; [reflexivity|].
  destruct (Ascii.eqb c " "%char); [discriminate|].
  destruct (CStr.strstr_space s) as [[b fr]|]; [discriminate|].
  intros _. rewrite IH; reflexivity.
Qed.

Lemma segments_space s before from :
  CStr.strstr_space s = Some (before, from) ->
  segments s = before :: segments (CStr.advance 1 from).
Proof.
  revert before from. induction s as [|c s IH]; simpl; intros before from H.
  - discriminate.
  - destruct (Ascii.eqb c " "%char) eqn:E.
    + inversion H; subst. reflexivity.
    + destruct (CStr.strstr_space s) as [[b fr]|]; [|discriminate].
      inversion H; subst. rewrite (IH _ _ eq_refl). reflexivity.
Qed.

Lemma nonempty_length s : nonempty s = Nat.ltb 0 (String.length s).
Proof. destruct s; reflexivity. Qed.

Lemma split_cflags_tokens start :
  forall clang_argv,
    split_cflags start clang_argv = (clang_argv ++ map Some (flag_tokens start))%list.
Proof.
  remember (String.length start) as n eqn:Hn. revert start Hn.
  induction n as [n IH] using lt_wf_ind; intros start -> clang_argv.
  destruct (CStr.strstr_space start) as [[before from]|] eqn:E.
  - rewrite (split_cflags_space _ _ _ _ E).
    rewrite (IH _ (strstr_space_shrinks _ _ _ E) _ eq_refl).
    unfold flag_tokens, last_segment. rewrite (segments_space _ _ _ E).
    pose proof (segments_not_nil (CStr.advance 1 from)) as Hne.
    destruct (segments (CStr.advance 1 from)) as [|seg segs] eqn:Es; [congruence|].
    change (removelast (before :: seg :: segs))
      with (before :: removelast (seg :: segs)).
    change (last (before :: seg :: segs) "") with (last (seg :: segs) "").
    simpl filter. rewrite nonempty_length.
    destruct (Nat.ltb 0 (String.length before)); simpl;
      rewrite <- ?app_assoc; reflexivity.
  - rewrite (split_cflags_no_space _ _ E).
    unfold flag_tokens, last_segment. rewrite (segments_no_space _ E). reflexivity.
Qed.

Lemma segments_app_space x y :
  segments (x ++ String " " y) = (segments x ++ segments y)%list.
Proof.
  induction x as [|c x IH]; simpl; [reflexivity|].
  destruct (Ascii.eqb c " "%char).
  - rewrite IH. reflexivity.
  - rewrite IH. pose proof (segments_not_nil x) as Hne.
    destruct (segments x); [congruence|reflexivity].
Qed.







(** ** The emitter *)

Lemma bind_done {A B} (m : M A) (k : A -> M B) w a w' :
  m w = Done a w' -> bind m k w = k a w'.
Proof. unfold bind. intros ->. reflexivity. Qed.

Lemma bind_aborted {A B} (m : M A) (k : A -> M B) w e w' :
  m w = Aborted e w' -> bind m k w = Aborted e w'.
Proof. unfold bind. intros ->. reflexivity. Qed.

Lemma fprintf_f_run text w : fprintf_f text w = Done tt (written text w).
Proof. reflexivity. Qed.

Lemma written_app a b w : written b (written a w) = written (a ++ b) w.
Proof.
  unfold written, set_f; simpl. rewrite CStr.append_assoc. reflexivity.
Qed.

Lemma written_empty w : written "" w = w.
Proof.
  destruct w as [p e]; destruct p. unfold written, set_f; simpl.
  rewrite CStr.append_empty_r. reflexivity.
Qed.

Lemma cur_indent_written text w :
  cur_indent (parse_h (written text w)) = cur_indent (parse_h w).
Proof. reflexivity. Qed.

Lemma print_indent_from_run n w :
  print_indent_from n w = Done tt (written (spaces n) w).
Proof.
  revert w; induction n as [|n IH]; intros w; simpl.
  - unfold ret. rewrite written_empty. reflexivity.
  - rewrite (bind_done _ _ _ _ _ (fprintf_f_run _ _)).
    rewrite IH, written_app. reflexivity.
Qed.

Lemma emit_args_run fn rest :
  forall arg_i w,
    arg_i + List.length rest = arg_count fn ->
    emit_args fn arg_i rest w
    = Done tt (written (String.concat ", " (map render_arg rest)) w).
Proof.
  induction rest as [|arg rest IH]; intros arg_i w Hlen.
  - simpl. unfold ret. rewrite written_empty. reflexivity.
  - simpl emit_args.
    rewrite (bind_done _ _ _ _ _ (fprintf_f_run _ _)).
    destruct rest as [|arg' rest'].
    + simpl in Hlen.
      replace (Nat.ltb (arg_i + 1) (arg_count fn)) with false
        by (symmetry; apply Nat.ltb_ge; lia).
      simpl. unfold bind, ret. reflexivity.
    + replace (Nat.ltb (arg_i + 1) (arg_count fn)) with true
        by (symmetry; apply Nat.ltb_lt; simpl in Hlen; lia).
      rewrite (bind_done _ _ _ _ _ (fprintf_f_run _ _)).
      rewrite IH by (simpl in *; lia).
      rewrite !written_app.
      change (String.concat ", " (map render_arg (arg :: arg' :: rest')))
        with (render_arg arg ++ ", "
              ++ String.concat ", " (map render_arg (arg' :: rest'))).
      unfold render_arg at 2. rewrite !CStr.append_assoc. reflexivity.
Qed.

Lemma emit_fn_run fn w :
  cur_indent (parse_h w) = indent_size ->
  emit_fn fn w = Done tt (written (render_fn fn) w).
Proof.
  intros Hindent. unfold emit_fn, print_indent.
  unfold get_p at 1. unfold bind at 1. unfold bind at 1.
  rewrite Hindent, print_indent_from_run.
  rewrite (bind_done _ _ _ _ _ (fprintf_f_run _ _)).
  rewrite (bind_done _ _ _ _ _ (emit_args_run fn (args fn) 0 _ eq_refl)).
  rewrite (bind_done _ _ _ _ _ (fprintf_f_run _ _)).
  unfold render_fn, buf_eql_str.
  destruct (String.eqb (return_type fn) "void"); simpl negb; cbv iota.
  - unfold bind at 1, ret at 1. rewrite fprintf_f_run, !written_app.
    simpl spaces. rewrite !CStr.append_assoc. reflexivity.
  - rewrite (bind_done _ _ _ _ _ (fprintf_f_run _ _)).
    rewrite fprintf_f_run, !written_app.
    simpl spaces. rewrite !CStr.append_assoc. reflexivity.
Qed.

Lemma emit_fns_run fns :
  forall w,
    cur_indent (parse_h w) = indent_size ->
    emit_fns fns w
    = Done tt (written (fold_right (fun fn rest => render_fn fn ++ rest) "" fns) w).
Proof.
  induction fns as [|fn fns IH]; intros w Hindent; cbn [fold_right emit_fns].
  - unfold ret. rewrite written_empty. reflexivity.
  - rewrite (bind_done _ _ _ _ _ (emit_fn_run fn w Hindent)).
    rewrite IH by exact Hindent. rewrite written_app. reflexivity.
Qed.

Lemma fold_render_app fns tail :
  fold_right (fun fn rest => render_fn fn ++ rest) "" fns ++ tail
  = fold_right (fun fn rest => render_fn fn ++ rest) tail fns.
Proof.
  induction fns as [|fn fns IH]; cbn [fold_right]; [reflexivity|].
  rewrite CStr.append_assoc, IH. reflexivity.
Qed.

(** ** The declaration collector: declarations that are skipped *)

Lemma app_snoc2 {A} (l : list A) (a b : A) :
  ((l ++ [a]) ++ [b] = l ++ [a; b])%list.
Proof. rewrite <- app_assoc. reflexivity. Qed.

Lemma visit_cursor_continue cursor w w' :
  fn_visitor cursor w = Done CXChildVisit_Continue w' ->
  visit_cursor fn_visitor cursor w = Done false w'.
Proof.
  intros H. destruct cursor; cbn [visit_cursor].
  rewrite (bind_done _ _ _ _ _ H). reflexivity.
Qed.

Lemma visit_cursors_cons cursor rest w w' :
  visit_cursor fn_visitor cursor w = Done false w' ->
  visit_cursors fn_visitor (cursor :: rest) w = visit_cursors fn_visitor rest w'.
Proof.
  intros H. cbn [visit_cursors]. rewrite (bind_done _ _ _ _ _ H). reflexivity.
Qed.

(** C3: at a function declaration the checks are made in this order.  A
    storage class other than none, extern and auto (static, private
    extern, OpenCL work-group local, register): nothing is written to the
    error stream, the function list and the current function stay as they
    are, the children are not visited and the traversal goes on with the
    next sibling.  Otherwise a variadic function type: the line
    [<file> line <L>, column <C>] of the declaration's start and then the
    line [warning: skipping variadic function, not yet supported] are
    written, these two lines and no other.  Otherwise a calling convention
    other than C: the location line and then the line
    [warning: skipping non c calling convention function, not yet supported].
    In both cases nothing is collected, the children are not visited and
    the traversal goes on with the next sibling. *)
Theorem fn_visitor_skips (cursor : CXCursor) (w : World) :
  clang_getCursorKind cursor = CXCursor_FunctionDecl ->
  let storage_class := clang_Cursor_getStorageClass cursor in
  let fn_type := clang_getCursorType cursor in
  let start := clang_getRangeStart (clang_getCursorExtent cursor) in
  let tag := loc_file_name start ++ " line " ++ fmt_u (loc_line start)
             ++ ", column " ++ fmt_u (loc_column start) ++ nl in
  let skipped_with (warning : string) :=
    fn_visitor cursor w = Done CXChildVisit_Continue (warned cursor warning w) /\
    stderr (warned cursor warning w) = (stderr w ++ [tag; warning])%list /\
    fn_list (parse_h (warned cursor warning w)) = fn_list (parse_h w) /\
    cur_fn (parse_h (warned cursor warning w)) = cur_fn (parse_h w) /\
    (forall rest,
        visit_cursors fn_visitor (cursor :: rest) w
        = visit_cursors fn_visitor rest (warned cursor warning w)) in
  (storage_class <> CX_SC_Invalid ->
   storage_class <> CX_SC_None ->
   storage_class <> CX_SC_Extern ->
   storage_class <> CX_SC_Auto ->
   fn_visitor cursor w = Done CXChildVisit_Continue (at_cursor cursor w) /\
   stderr (at_cursor cursor w) = stderr w /\
   fn_list (parse_h (at_cursor cursor w)) = fn_list (parse_h w) /\
   cur_fn (parse_h (at_cursor cursor w)) = cur_fn (parse_h w) /\
   (forall rest,
       visit_cursors fn_visitor (cursor :: rest) w
       = visit_cursors fn_visitor rest (at_cursor cursor w))) /\
  (storage_class = CX_SC_None \/ storage_class = CX_SC_Extern
   \/ storage_class = CX_SC_Auto ->
   clang_isFunctionTypeVariadic fn_type = true ->
   skipped_with ("warning: skipping variadic function, not yet supported" ++ nl)) /\
  (storage_class = CX_SC_None \/ storage_class = CX_SC_Extern
   \/ storage_class = CX_SC_Auto ->
   clang_isFunctionTypeVariadic fn_type = false ->
   clang_getFunctionTypeCallingConv fn_type <> CXCallingConv_C ->
   skipped_with
     ("warning: skipping non c calling convention function, not yet supported" ++ nl)).
Proof.
  intros Hkind storage_class fn_type start tag skipped_with.
  destruct cursor as [kind sp ext sc ty children].
  simpl in Hkind, storage_class, fn_type, start.
  subst kind storage_class fn_type.
  assert (Hdone : forall warning,
             fn_visitor (Cursor CXCursor_FunctionDecl sp ext sc ty children) w
             = Done CXChildVisit_Continue
                 (warned (Cursor CXCursor_FunctionDecl sp ext sc ty children) warning w) ->
             skipped_with warning).
  { intros warning Hrun. unfold skipped_with.
    split; [exact Hrun|]. do 3 (split; [reflexivity|]).
    intros rest. apply visit_cursors_cons, visit_cursor_continue, Hrun. }
  split; [|split].
  - intros H0 H1 H2 H3.
    assert (Hrun : fn_visitor (Cursor CXCursor_FunctionDecl sp ext sc ty children) w
                   = Done CXChildVisit_Continue
                       (at_cursor (Cursor CXCursor_FunctionDecl sp ext sc ty children) w)).
    { destruct sc; try congruence; reflexivity. }
    split; [exact Hrun|]. do 3 (split; [reflexivity|]).
    intros rest. apply visit_cursors_cons, visit_cursor_continue, Hrun.
  - intros Hsc Hvar. apply Hdone.
    unfold clang_isFunctionTypeVariadic in Hvar.
    unfold fn_visitor. cbn.
    destruct Hsc as [ -> | [ -> | -> ] ]; cbn;
      unfold clang_isFunctionTypeVariadic; rewrite Hvar;
      unfold warned; rewrite <- app_snoc2; reflexivity.
  - intros Hsc Hvar Hcc. apply Hdone.
    unfold clang_isFunctionTypeVariadic in Hvar.
    unfold fn_visitor. cbn.
    destruct Hsc as [ -> | [ -> | -> ] ]; cbn;
      unfold clang_isFunctionTypeVariadic, clang_getFunctionTypeCallingConv in *;
      rewrite Hvar; destruct (fn_calling_conv ty); try congruence;
      unfold warned; rewrite <- app_snoc2; reflexivity.
Qed.

(** ** The declaration collector: parameter names *)

Lemma CXCursor_tree_ind (P : CXCursor -> Prop) :
  (forall kind spelling extent storage_class type children,
      Forall P children ->
      P (Cursor kind spelling extent storage_class type children)) ->
  forall c, P c.
Proof.
  intros step.
  fix IH 1. intros [kind spelling extent storage_class type children].
  apply step.
  induction children as [|c children IHchildren]; constructor.
  - apply IH.
  - exact IHchildren.
Qed.

Lemma visit_cursor_unfold visitor cursor w :
  visit_cursor visitor cursor w
  = (r <- visitor cursor ;;
     match r with
     | CXChildVisit_Break => ret true
     | CXChildVisit_Continue => ret false
     | CXChildVisit_Recurse => visit_cursors visitor (cursor_children cursor)
     end) w.
Proof.
  destruct cursor as [kind sp ext sc ty children]. cbn [visit_cursor cursor_children].
  unfold bind at 1 3.
  destruct (visitor (Cursor kind sp ext sc ty children) w) as [r w1|e w1];
    [|reflexivity].
  destruct r; try reflexivity.
  revert w1. induction children as [|c children IH]; intros w1; [reflexivity|].
  cbn [visit_cursors]. unfold bind at 1 3.
  destruct (visit_cursor visitor c w1) as [[|] w2|e w2]; try reflexivity.
  apply IH.
Qed.

Ltac classify_through IH :=
  let T := fresh "T" in
  let HT := fresh "HT" in
  let Habort := fresh "Habort" in
  let w := fresh "w" in
  let w' := fresh "w'" in
  let e := fresh "e" in
  let Hrun := fresh "Hrun" in
  let Hp := fresh "Hp" in
  destruct IH as [[T HT]|Habort];
  [ left; eexists; intros w; destruct (HT w) as (w' & Hrun & Hp);
    exists w'; unfold bind; rewrite Hrun; split; [reflexivity|exact Hp]
  | right; intros w; destruct (Habort w) as (e & w' & Hrun & Hp);
    exists e, w'; unfold bind; rewrite Hrun; split; [reflexivity|exact Hp] ].

(** The classifier answers the same in every state, leaves the collector's
    state alone, and stops a run only by [zig_panic] or
    [zig_unreachable]. *)
Lemma to_zig_type_uniform (t : CXType) :
  (exists T, forall w,
      exists w', to_zig_type t w = Done T w' /\ parse_h w' = parse_h w) \/
  (forall w, exists e w', to_zig_type t w = Aborted e w' /\ is_assert e = false).
Proof.
  induction t as [|kind sp q canonical IHc pointee IHp element IHe size underlying IHu].
  - right. intros w. do 2 eexists. split; reflexivity.
  - destruct kind; cbn [to_zig_type];
      try (left; eexists; intros w; eexists; split; reflexivity);
      try (right; intros w; do 2 eexists; split; reflexivity);
      try classify_through IHp;
      try classify_through IHe.
    + (* unexposed *)
      destruct canonical as [|ck ? ? ? ? ? ? ?]; [exact IHc|].
      destruct ck; try exact IHc.
      right. intros w. do 2 eexists. split; reflexivity.
    + (* typedef *)
      destruct (typedef_shortcut _).
      * left. eexists. intros w. eexists. split; reflexivity.
      * exact IHu.
Qed.

Lemma to_zig_type_classifiable t w :
  classifiable t ->
  exists T w', to_zig_type t w = Done T w' /\ parse_h w' = parse_h w
               /\ classified t T.
Proof.
  intros (T & w0 & w0' & H0).
  destruct (to_zig_type_uniform t) as [[T' HT]|Habort].
  - destruct (HT w) as (w' & Hrun & Hp).
    exists T', w'. split; [exact Hrun|]. split; [exact Hp|].
    exists w, w'. exact Hrun.
  - destruct (Habort w0) as (e & w1 & Hrun & _). congruence.
Qed.

Lemma to_zig_type_aborted t w e w' :
  to_zig_type t w = Aborted e w' -> is_assert e = false /\ ~ classifiable t.
Proof.
  intros Hrun.
  destruct (to_zig_type_uniform t) as [[T HT]|Habort].
  - destruct (HT w) as (w1 & Hrun1 & _). congruence.
  - split.
    + destruct (Habort w) as (e1 & w1 & Hrun1 & He). congruence.
    + intros (T & w0 & w0' & H0).
      destruct (Habort w0) as (e1 & w1 & Hrun1 & _). congruence.
Qed.

Lemma to_zig_type_done t w T w' :
  to_zig_type t w = Done T w' -> parse_h w' = parse_h w /\ classified t T.
Proof.
  intros Hrun. split; [|exists w, w'; exact Hrun].
  destruct (to_zig_type_uniform t) as [[T' HT]|Habort].
  - destruct (HT w) as (w1 & Hrun1 & Hp). congruence.
  - destruct (Habort w) as (e1 & w1 & Hrun1 & _). congruence.
Qed.

Lemma same_collector_state_refl p : same_collector_state p p.
Proof. repeat split. Qed.

Lemma same_collector_state_trans p1 p2 p3 :
  same_collector_state p1 p2 -> same_collector_state p2 p3 ->
  same_collector_state p1 p3.
Proof.
  intros (A1 & A2 & A3 & A4 & A5) (B1 & B2 & B3 & B4 & B5).
  repeat split; congruence.
Qed.

Lemma same_collector_state_at_cursor c w :
  same_collector_state (parse_h w) (parse_h (at_cursor c w)).
Proof. repeat split. Qed.

Lemma collected_same p p' :
  same_collector_state p p' -> collected p' = collected p.
Proof.
  intros (_ & H2 & H3 & _). unfold collected. rewrite H2, H3. reflexivity.
Qed.

(** Subtrees that hold no function or parameter declaration leave the
    collector as it is. *)
Lemma visit_param_free c :
  param_free c = true ->
  forall w, exists w',
    visit_cursor fn_visitor c w = Done false w' /\
    same_collector_state (parse_h w) (parse_h w') /\
    stderr w' = stderr w.
Proof.
  induction c as [kind sp ext sc ty children IH] using CXCursor_tree_ind.
  intros Hfree w.
  assert (Hchildren :
            forallb param_free children = true ->
            forall w0, exists w',
              visit_cursors fn_visitor children w0 = Done false w' /\
              same_collector_state (parse_h w0) (parse_h w') /\
              stderr w' = stderr w0).
  { clear Hfree w. induction IH as [|c children Hc _ IHchildren]; intros Hall w0.
    - exists w0. split; [reflexivity|]. split; [apply same_collector_state_refl|reflexivity].
    - cbn [forallb] in Hall. apply andb_prop in Hall. destruct Hall as [Hc1 Hall].
      destruct (Hc Hc1 w0) as (w1 & Hrun1 & Hsame1 & Herr1).
      destruct (IHchildren Hall w1) as (w2 & Hrun2 & Hsame2 & Herr2).
      exists w2. cbn [visit_cursors]. rewrite (bind_done _ _ _ _ _ Hrun1).
      split; [exact Hrun2|].
      split; [eapply same_collector_state_trans; eassumption|congruence]. }
  rewrite visit_cursor_unfold.
  destruct kind; cbn [param_free] in Hfree; try discriminate;
    match goal with
    | |- context [fn_visitor ?c] =>
        first
          [ exists (at_cursor c w);
            split; [reflexivity|];
            split; [apply same_collector_state_at_cursor|reflexivity]
          | destruct (Hchildren Hfree (at_cursor c w)) as (w' & Hrun & Hsame & Herr);
            exists w'; split; [exact Hrun|]; split; [|exact Herr];
            eapply same_collector_state_trans;
            [apply same_collector_state_at_cursor|exact Hsame] ]
    end.
Qed.

Lemma update_at_middle {A} (g : A -> A) (l1 : list A) (x : A) (l2 : list A) :
  update_at (List.length l1) g (l1 ++ x :: l2) = (l1 ++ g x :: l2)%list.
Proof. induction l1 as [|a l1 IH]; simpl; congruence. Qed.

Lemma args_of_nil tys : args_of [] tys = map typed tys.
Proof. reflexivity. Qed.

Lemma args_of_cons name names T tys :
  args_of (name :: names) (T :: tys) = named (name, T) :: args_of names tys.
Proof. reflexivity. Qed.

Lemma update_at_args_of name names :
  forall tys,
    List.length names < List.length tys ->
    update_at (List.length names) (set_arg_name name) (args_of names tys)
    = args_of (names ++ [name]) tys.
Proof.
  induction names as [|n names IH]; intros [|T tys] Hlen; simpl in Hlen; try lia.
  - reflexivity.
  - cbn [app]. rewrite !args_of_cons. cbn [List.length update_at].
    rewrite IH by lia. reflexivity.
Qed.

Lemma length_args_of names :
  forall tys,
    List.length names <= List.length tys ->
    List.length (args_of names tys) = List.length tys.
Proof.
  induction names as [|n names IH]; intros [|T tys] Hlen; simpl in Hlen; try lia.
  - reflexivity.
  - rewrite args_of_nil, length_map. reflexivity.
  - rewrite args_of_cons. cbn [List.length]. rewrite IH by lia. reflexivity.
Qed.

Lemma arg_types_args_of names :
  forall tys,
    List.length names <= List.length tys ->
    map arg_type (args_of names tys) = tys.
Proof.
  induction names as [|n names IH]; intros [|T tys] Hlen; simpl in Hlen; try lia.
  - reflexivity.
  - rewrite args_of_nil, map_map. cbn [typed arg_type]. apply map_id.
  - rewrite args_of_cons. cbn [map named arg_type snd]. rewrite IH by lia. reflexivity.
Qed.

Lemma arg_names_args_of names :
  forall tys,
    List.length names = List.length tys ->
    map arg_name (args_of names tys) = names.
Proof.
  induction names as [|n names IH]; intros [|T tys] Hlen; simpl in Hlen; try lia.
  - reflexivity.
  - rewrite args_of_cons. cbn [map named arg_name fst]. rewrite IH by lia. reflexivity.
Qed.

(** A parameter declaration met while a function is current and has a
    parameter left: neither assertion fails, the name goes to the argument
    at [arg_index], and [arg_index] moves on by one. *)
Lemma visit_parm_decl c w fn :
  is_ParmDecl c = true ->
  cur_fn (parse_h w) = Some fn ->
  arg_index (parse_h w) < arg_count fn ->
  exists w',
    visit_cursor fn_visitor c w = Done false w' /\
    f (parse_h w') = f (parse_h w) /\
    fn_list (parse_h w') = fn_list (parse_h w) /\
    cur_indent (parse_h w') = cur_indent (parse_h w) /\
    stderr w' = stderr w /\
    cur_fn (parse_h w')
    = Some (set_args (update_at (arg_index (parse_h w))
                        (set_arg_name (clang_getCursorSpelling c)) (args fn)) fn) /\
    arg_index (parse_h w') = S (arg_index (parse_h w)).
Proof.
  intros Hkind Hcur Hidx.
  destruct c as [kind sp ext sc ty children].
  unfold is_ParmDecl in Hkind. cbn [clang_getCursorKind] in Hkind.
  destruct kind; try discriminate.
  rewrite visit_cursor_unfold.
  eexists. split.
  - unfold fn_visitor. cbn [clang_getCursorKind clang_getCursorSpelling].
    unfold bind, modify_p, get_p, update_cur_fn, modify_p, assert, ret.
    cbn [parse_h set_range set_location cur_fn arg_index].
    rewrite Hcur. apply Nat.ltb_lt in Hidx. rewrite Hidx.
    cbn [parse_h]. reflexivity.
  - cbn [parse_h set_arg_index set_cur_fn set_location set_range f fn_list
           cur_indent cur_fn arg_index stderr option_map clang_getCursorSpelling].
    rewrite Hcur, Nat.add_1_r. cbn [option_map]. repeat split.
Qed.

Lemma filter_parm_cons c children :
  parm_names (c :: children)
  = if is_ParmDecl c then clang_getCursorSpelling c :: parm_names children
    else parm_names children.
Proof.
  unfold parm_names. cbn [filter]. destruct (is_ParmDecl c); reflexivity.
Qed.

Lemma param_free_not_parm c : param_free c = true -> is_ParmDecl c = false.
Proof.
  destruct c as [kind sp ext sc ty children].
  destruct kind; cbn; (discriminate || reflexivity).
Qed.

(** The children of an accepted function declaration: the names of its
    parameter declarations are recorded in their order. *)
Lemma visit_fn_children children :
  forallb (fun child => is_ParmDecl child || param_free child) children = true ->
  forall w fn names tys,
    cur_fn (parse_h w) = Some fn ->
    args fn = args_of names tys ->
    arg_index (parse_h w) = List.length names ->
    List.length names + List.length (parm_names children) <= List.length tys ->
    exists w',
      visit_cursors fn_visitor children w = Done false w' /\
      f (parse_h w') = f (parse_h w) /\
      fn_list (parse_h w') = fn_list (parse_h w) /\
      cur_indent (parse_h w') = cur_indent (parse_h w) /\
      stderr w' = stderr w /\
      cur_fn (parse_h w')
      = Some (set_args (args_of (names ++ parm_names children) tys) fn) /\
      arg_index (parse_h w') = List.length (names ++ parm_names children).
Proof.
  induction children as [|c children IH]; intros Hall w fn names tys Hcur Hargs Hidx Hlen.
  - exists w. split; [reflexivity|]. do 4 (split; [reflexivity|]).
    unfold parm_names. cbn [filter map]. rewrite app_nil_r.
    split; [|exact Hidx].
    rewrite Hcur, <- Hargs. destruct fn; reflexivity.
  - cbn [forallb] in Hall. apply andb_prop in Hall. destruct Hall as [Hc Hall].
    rewrite filter_parm_cons in *.
    destruct (is_ParmDecl c) eqn:Hparm.
    + cbn [List.length] in Hlen.
      assert (Hroom : arg_index (parse_h w) < arg_count fn).
      { unfold arg_count. rewrite Hargs, length_args_of, Hidx; lia. }
      destruct (visit_parm_decl c w fn Hparm Hcur Hroom)
        as (w1 & Hrun1 & Hf1 & Hl1 & Hi1 & He1 & Hcur1 & Hidx1).
      rewrite Hargs, Hidx, update_at_args_of in Hcur1 by lia.
      destruct (IH Hall w1 _ (names ++ [clang_getCursorSpelling c])%list tys Hcur1 eq_refl)
        as (w2 & Hrun2 & Hf2 & Hl2 & Hi2 & He2 & Hcur2 & Hidx2).
      { rewrite Hidx1, Hidx, length_app. cbn [List.length]. lia. }
      { rewrite length_app. cbn [List.length]. lia. }
      exists w2. cbn [visit_cursors]. rewrite (bind_done _ _ _ _ _ Hrun1).
      split; [exact Hrun2|].
      rewrite <- app_assoc in Hcur2, Hidx2. cbn [app] in Hcur2, Hidx2.
      repeat split; try congruence.
      rewrite Hcur2. reflexivity.
    + cbn [orb] in Hc.
      destruct (visit_param_free c Hc w) as (w1 & Hrun1 & (S1 & S2 & S3 & S4 & S5) & He1).
      destruct (IH Hall w1 fn names tys) as (w2 & Hrun2 & Hf2 & Hl2 & Hi2 & He2 & Hcur2 & Hidx2);
        try congruence.
      exists w2. cbn [visit_cursors]. rewrite (bind_done _ _ _ _ _ Hrun1).
      split; [exact Hrun2|]. repeat split; congruence.
Qed.

Lemma bind_modify_p {B} g (k : unit -> M B) w :
  bind (modify_p g) k w = k tt {| parse_h := g (parse_h w); stderr := stderr w |}.
Proof. reflexivity. Qed.

Lemma bind_get_p {B} (k : ParseH -> M B) w : bind get_p k w = k (parse_h w) w.
Proof. reflexivity. Qed.

Lemma bind_ret {A B} (a : A) (k : A -> M B) w : bind (ret a) k w = k a w.
Proof. reflexivity. Qed.

Lemma firstn_succ_nth {A} (d : A) (l : list A) :
  forall i, i < List.length l -> firstn (S i) l = (firstn i l ++ [nth i l d])%list.
Proof.
  induction l as [|a l IH]; intros i Hi; simpl in Hi; [lia|].
  destruct i as [|i]; [reflexivity|].
  cbn [firstn nth app]. rewrite <- IH by lia. reflexivity.
Qed.

(** The loop that classifies the parameter types, started with the types
    [done] of the parameters in front of index [i] in place. *)
Lemma classify_params_run fn_type :
  forall todo done w fn,
    cur_fn (parse_h w) = Some fn ->
    args fn = (map typed done ++ repeat zeroed_Arg todo)%list ->
    List.length done + todo = List.length (fn_arg_types fn_type) ->
    Forall2 classified (firstn (List.length done) (fn_arg_types fn_type)) done ->
    match classify_params fn_type (List.length done) todo w with
    | Done _ w' =>
        exists tys,
          Forall2 classified (fn_arg_types fn_type) tys /\
          cur_fn (parse_h w') = Some (set_args (map typed tys) fn) /\
          f (parse_h w') = f (parse_h w) /\
          fn_list (parse_h w') = fn_list (parse_h w) /\
          arg_index (parse_h w') = arg_index (parse_h w) /\
          cur_indent (parse_h w') = cur_indent (parse_h w)
    | Aborted e _ =>
        is_assert e = false /\ ~ Forall classifiable (fn_arg_types fn_type)
    end.
Proof.
  induction todo as [|todo IH]; intros done w fn Hcur Hargs Hlen Hdone.
  - cbn [classify_params]. unfold ret. exists done.
    rewrite Nat.add_0_r in Hlen. rewrite Hlen, firstn_all in Hdone.
    split; [exact Hdone|]. split; [|repeat split].
    cbn [repeat] in Hargs. rewrite app_nil_r in Hargs.
    rewrite Hcur, <- Hargs. destruct fn; reflexivity.
  - cbn [classify_params].
    assert (Hi : List.length done < List.length (fn_arg_types fn_type)) by lia.
    unfold bind at 1.
    destruct (to_zig_type (clang_getArgType fn_type (List.length done)) w)
      as [T w1|e w1] eqn:Hrun.
    + apply to_zig_type_done in Hrun. destruct Hrun as [Hp HT].
      unfold update_cur_fn. rewrite bind_modify_p.
      replace (List.length done + 1) with (List.length (done ++ [T])%list)
        by (rewrite length_app; reflexivity).
      match goal with
      | |- match classify_params _ _ _ ?w2 with _ => _ end =>
          specialize (IH (done ++ [T])%list w2
                        (set_args (map typed (done ++ [T]) ++ repeat zeroed_Arg todo)%list fn))
      end.
      cbn [parse_h cur_fn set_cur_fn f fn_list arg_index cur_indent] in IH.
      rewrite Hp in *.
      destruct (classify_params fn_type (List.length (done ++ [T])%list) todo _)
        as [u w2|e w2].
      * destruct IH as (tys & Htys & Hcur2 & H2).
        { rewrite Hcur. cbn [option_map]. f_equal. unfold set_args at 1. f_equal.
          rewrite Hargs. cbn [repeat].
          rewrite <- (length_map typed done), update_at_middle.
          rewrite map_app, <- app_assoc. reflexivity. }
        { reflexivity. }
        { rewrite length_app. cbn [List.length]. lia. }
        { rewrite length_app. cbn [List.length]. rewrite Nat.add_1_r.
          rewrite (firstn_succ_nth CXType_none) by exact Hi.
          apply Forall2_app; [exact Hdone|]. constructor; [exact HT|constructor]. }
        exists tys. split; [exact Htys|]. split; [exact Hcur2|exact H2].
      * apply IH.
        { rewrite Hcur. cbn [option_map]. f_equal. unfold set_args at 1. f_equal.
          rewrite Hargs. cbn [repeat].
          rewrite <- (length_map typed done), update_at_middle.
          rewrite map_app, <- app_assoc. reflexivity. }
        { reflexivity. }
        { rewrite length_app. cbn [List.length]. lia. }
        { rewrite length_app. cbn [List.length]. rewrite Nat.add_1_r.
          rewrite (firstn_succ_nth CXType_none) by exact Hi.
          apply Forall2_app; [exact Hdone|]. constructor; [exact HT|constructor]. }
    + apply to_zig_type_aborted in Hrun. destruct Hrun as [He Hnot].
      split; [exact He|]. intros Hall. apply Hnot.
      rewrite Forall_forall in Hall. apply Hall.
      unfold clang_getArgType. apply nth_In. exact Hi.
Qed.

Lemma end_fn_run w :
  end_fn w
  = Done tt {| parse_h := set_cur_fn None (set_fn_list (collected (parse_h w)) (parse_h w));
               stderr := stderr w |}.
Proof.
  destruct w as [p e]. destruct p as [out fns cur idx ind rng loc].
  unfold end_fn, collected. rewrite bind_get_p. cbn [parse_h cur_fn fn_list].
  destruct cur as [fn|].
  - reflexivity.
  - unfold ret, set_cur_fn, set_fn_list. cbn. rewrite app_nil_r. reflexivity.
Qed.

Lemma begin_fn_run w :
  cur_fn (parse_h w) = None ->
  begin_fn w
  = Done tt {| parse_h := set_cur_fn (Some zeroed_Fn) (parse_h w); stderr := stderr w |}.
Proof.
  intros H. unfold begin_fn. rewrite bind_get_p, H. reflexivity.
Qed.

(** An accepted function declaration: the function that was current is
    finished, a new one is begun with the name of the declaration, its
    classified return type and one argument per parameter type, all types
    classified and no name recorded yet, and the children are visited
    next. *)
Lemma fn_visitor_accepted c w :
  accepted c = true ->
  let fn_type := clang_getCursorType c in
  match fn_visitor c w with
  | Done r w' =>
      r = CXChildVisit_Recurse /\
      exists T tys,
        classified (clang_getResultType fn_type) T /\
        Forall2 classified (fn_arg_types fn_type) tys /\
        cur_fn (parse_h w')
        = Some {| fn_name := clang_getCursorSpelling c; return_type := T;
                  args := args_of [] tys |} /\
        fn_list (parse_h w') = collected (parse_h w) /\
        arg_index (parse_h w') = 0 /\
        f (parse_h w') = f (parse_h w) /\
        cur_indent (parse_h w') = cur_indent (parse_h w)
  | Aborted e _ =>
      is_assert e = false /\
      ~ (classifiable (clang_getResultType fn_type)
         /\ Forall classifiable (fn_arg_types fn_type))
  end.
Proof.
  intros Hacc fn_type.
  destruct c as [kind sp ext sc ty children].
  unfold accepted in Hacc. cbn in Hacc.
  destruct kind; try discriminate.
  apply andb_prop in Hacc. destruct Hacc as [Hacc Hcc].
  apply andb_prop in Hacc. destruct Hacc as [Hsc Hvar].
  apply negb_true_iff in Hvar.
  cbn in fn_type. subst fn_type.
  unfold fn_visitor.
  cbn [clang_getCursorKind clang_getCursorSpelling clang_getCursorExtent
         clang_Cursor_getStorageClass clang_getCursorType].
  rewrite !bind_modify_p.
  assert (Hexport : is_storage_class_export sc = ret true)
    by (destruct sc; try discriminate; reflexivity).
  rewrite Hexport, bind_ret. cbn [negb].
  rewrite Hvar, Hcc. cbn [negb].
  rewrite (bind_done _ _ _ _ _ (end_fn_run _)).
  erewrite bind_done by (apply begin_fn_run; reflexivity).
  unfold bind at 1.
  match goal with
  | |- match match to_zig_type ?t ?w0 with _ => _ end with _ => _ end =>
      destruct (to_zig_type t w0) as [T w1|e w1] eqn:Hrun
  end.
  - apply to_zig_type_done in Hrun. destruct Hrun as [Hp HT].
    unfold update_cur_fn. rewrite !bind_modify_p. rewrite Hp.
    cbn [parse_h cur_fn set_cur_fn set_fn_list set_location set_range option_map].
    unfold bind at 1.
    match goal with
    | |- match match classify_params ?ft 0 ?n ?w2 with _ => _ end with _ => _ end =>
        pose proof (classify_params_run ft n [] w2
                      {| fn_name := sp; return_type := T; args := allocate_Arg n |}
                      eq_refl eq_refl eq_refl (Forall2_nil _)) as Hloop;
        cbn [List.length] in Hloop;
        destruct (classify_params ft 0 n w2) as [u w3|e w3]
    end.
    + destruct Hloop as (tys & Htys & Hcur & Hf & Hl & Hi & Hind).
      rewrite bind_modify_p. unfold ret.
      split; [reflexivity|]. exists T, tys.
      split; [exact HT|]. split; [exact Htys|].
      cbn [parse_h cur_fn fn_list arg_index f cur_indent set_arg_index].
      rewrite Hcur, Hf, Hl, Hind. repeat split.
    + destruct Hloop as [He Hnot]. split; [exact He|]. tauto.
  - apply to_zig_type_aborted in Hrun. destruct Hrun as [He Hnot].
    split; [exact He|]. tauto.
Qed.

(** A function declaration that is not accepted: nothing is collected and
    its children are not visited. *)
Lemma fn_visitor_skipped c w :
  clang_getCursorKind c = CXCursor_FunctionDecl ->
  accepted c = false ->
  match fn_visitor c w with
  | Done r w' =>
      r = CXChildVisit_Continue /\ same_collector_state (parse_h w) (parse_h w')
  | Aborted e _ =>
      is_assert e = false /\ clang_Cursor_getStorageClass c = CX_SC_Invalid
  end.
Proof.
  intros Hkind Hacc.
  destruct c as [kind sp ext sc ty children].
  cbn in Hkind. subst kind.
  unfold accepted in Hacc. cbn in Hacc.
  unfold fn_visitor.
  cbn [clang_getCursorKind clang_getCursorSpelling clang_getCursorExtent
         clang_Cursor_getStorageClass clang_getCursorType].
  rewrite !bind_modify_p.
  destruct sc; cbn [is_storage_class_export exportable andb] in *;
    try (split; reflexivity);
    try (rewrite bind_ret; cbn [negb]; split; [reflexivity|repeat split]).
  all: rewrite bind_ret; cbn [negb];
    unfold clang_isFunctionTypeVariadic, clang_getFunctionTypeCallingConv in *;
    destruct (fn_variadic ty); cbn [negb andb] in Hacc;
    [ split; [reflexivity|repeat split]
    | rewrite Hacc; cbn [negb]; split; [reflexivity|repeat split] ].
Qed.

(** What the parameter branch of [fn_visitor] does in any state. *)
Lemma fn_visitor_parm_decl c w :
  is_ParmDecl c = true ->
  fn_visitor c w
  = match cur_fn (parse_h w) with
    | None => Aborted (Abort_assert "p->cur_fn") (at_cursor c w)
    | Some fn =>
        if Nat.ltb (arg_index (parse_h w)) (arg_count fn)
        then Done CXChildVisit_Continue
               {| parse_h :=
                    set_arg_index (arg_index (parse_h w) + 1)
                      (set_cur_fn
                         (Some (set_args
                                  (update_at (arg_index (parse_h w))
                                     (set_arg_name (clang_getCursorSpelling c))
                                     (args fn)) fn))
                         (parse_h (at_cursor c w)));
                  stderr := stderr w |}
        else Aborted (Abort_assert "p->arg_index < p->cur_fn->arg_count")
               (at_cursor c w)
    end.
Proof.
  intros Hkind. destruct c as [kind sp ext sc ty children].
  unfold is_ParmDecl in Hkind. cbn [clang_getCursorKind] in Hkind.
  destruct kind; try discriminate.
  unfold fn_visitor. cbn [clang_getCursorKind clang_getCursorSpelling].
  rewrite !bind_modify_p, bind_get_p.
  cbn [parse_h cur_fn set_location set_range arg_index].
  destruct (cur_fn (parse_h w)) as [fn|] eqn:Hcur; [|reflexivity].
  unfold assert.
  destruct (Nat.ltb (arg_index (parse_h w)) (arg_count fn)); [|reflexivity].
  rewrite bind_ret. unfold update_cur_fn. rewrite !bind_modify_p.
  cbn [parse_h cur_fn set_location set_range set_cur_fn]. rewrite Hcur. reflexivity.
Qed.

Lemma visited_same cs ok w w' :
  cs = [] ->
  same_collector_state (parse_h w) (parse_h w') ->
  visited cs ok w (Done false w').
Proof.
  intros -> Hsame. pose proof (collected_same _ _ Hsame) as Hcol.
  destruct Hsame as (H1 & _ & _ & _ & H5).
  split; [reflexivity|]. split; [exact H1|]. split; [exact H5|].
  exists []. rewrite app_nil_r. split; [exact Hcol|constructor].
Qed.

Lemma visit_cursors_well_formed children :
  Forall (fun c => well_formed c = true ->
                   forall w, visited (declared c) (translatable c) w
                               (visit_cursor fn_visitor c w)) children ->
  forallb well_formed children = true ->
  forall w,
    visited (flat_map declared children) (all_translatable children) w
      (visit_cursors fn_visitor children w).
Proof.
  induction 1 as [|c children Hc _ IH]; intros Hall w.
  - apply visited_same; [reflexivity|apply same_collector_state_refl].
  - cbn [forallb] in Hall. apply andb_prop in Hall. destruct Hall as [Hwf Hall].
    cbn [visit_cursors flat_map all_translatable]. unfold bind.
    specialize (Hc Hwf w).
    destruct (visit_cursor fn_visitor c w) as [broken w1|e w1].
    + destruct Hc as (-> & Hf1 & Hi1 & fns1 & Hcol1 & Hm1).
      specialize (IH Hall w1).
      destruct (visit_cursors fn_visitor children w1) as [broken w2|e w2].
      * destruct IH as (-> & Hf2 & Hi2 & fns2 & Hcol2 & Hm2).
        split; [reflexivity|]. split; [congruence|]. split; [congruence|].
        exists (fns1 ++ fns2)%list. split.
        -- rewrite Hcol2, Hcol1, app_assoc. reflexivity.
        -- apply Forall2_app; assumption.
      * destruct IH as [He Hnot]. split; [exact He|tauto].
    + destruct Hc as [He Hnot]. split; [exact He|tauto].
Qed.

Lemma all_translatable_inner children :
  (fix all (cs : list CXCursor) : Prop :=
     match cs with
     | [] => True
     | c' :: cs' => translatable c' /\ all cs'
     end) children
  = all_translatable children.
Proof. induction children as [|c children IH]; cbn; congruence. Qed.

Lemma visit_well_formed c :
  well_formed c = true ->
  forall w, visited (declared c) (translatable c) w (visit_cursor fn_visitor c w).
Proof.
  induction c as [kind sp ext sc ty children IH] using CXCursor_tree_ind.
  intros Hwf w.
  pose proof (visit_cursors_well_formed children IH) as Hchildren.
  rewrite visit_cursor_unfold.
  destruct kind; cbn [well_formed] in Hwf; try discriminate;
    try match goal with
      | |- visited _ _ _ (bind (fn_visitor ?c) _ w) =>
          first
            [ change (visited [] (translatable c) w (Done false (at_cursor c w)));
              apply visited_same; [reflexivity|apply same_collector_state_at_cursor]
            | change (visited (flat_map declared children) (translatable c) w
                        (visit_cursors fn_visitor children (at_cursor c w)));
              change (translatable c)
                with ((fix all (cs : list CXCursor) : Prop :=
                         match cs with
                         | [] => True
                         | c' :: cs' => translatable c' /\ all cs'
                         end) children);
              rewrite all_translatable_inner;
              exact (Hchildren Hwf _) ]
      end.
  (* the function declaration *)
  unfold bind. cbn [declared].
  destruct (accepted (Cursor CXCursor_FunctionDecl sp ext sc ty children)) eqn:Hacc.
  - apply andb_prop in Hwf. destruct Hwf as [Hcount Hkids].
    apply Nat.eqb_eq in Hcount.
    pose proof (fn_visitor_accepted _ w Hacc) as Hhead. cbn zeta in Hhead.
    destruct (fn_visitor (Cursor CXCursor_FunctionDecl sp ext sc ty children) w)
      as [r w1|e w1].
    + destruct Hhead as (-> & T & tys & HT & Htys & Hcur1 & Hl1 & Hi1 & Hf1 & Hind1).
      pose proof (Forall2_length Htys) as Hlen.
      unfold clang_getNumArgTypes in Hcount.
      cbn [clang_getCursorType cursor_children] in *.
      destruct (visit_fn_children children Hkids w1 _ [] tys Hcur1 eq_refl Hi1)
        as (w2 & Hrun2 & Hf2 & Hl2 & Hind2 & He2 & Hcur2 & Hi2).
      { cbn [List.length]. lia. }
      rewrite Hrun2. cbn [app] in Hcur2.
      split; [reflexivity|]. split; [congruence|]. split; [congruence|].
      eexists [_]. split.
      * unfold collected at 1. rewrite Hcur2, Hl2, Hl1. reflexivity.
      * constructor; [|constructor].
        unfold fn_matches.
        cbn [fn_name return_type args set_args clang_getCursorSpelling
               clang_getCursorType cursor_children].
        split; [reflexivity|]. split; [exact HT|].
        split; [rewrite length_args_of by lia; unfold clang_getNumArgTypes; lia|].
        split; [apply arg_names_args_of; lia|].
        rewrite arg_types_args_of by lia. exact Htys.
    + destruct Hhead as [He Hnot]. split; [exact He|].
      cbn [translatable]. intros [_ Htr]. apply Hnot, Htr, Hacc.
  - pose proof (fn_visitor_skipped
                  (Cursor CXCursor_FunctionDecl sp ext sc ty children) w eq_refl Hacc)
      as Hhead.
    destruct (fn_visitor (Cursor CXCursor_FunctionDecl sp ext sc ty children) w)
      as [r w1|e w1].
    + destruct Hhead as [-> Hsame]. apply visited_same; [reflexivity|exact Hsame].
    + destruct Hhead as [He Hsc]. split; [exact He|].
      cbn [translatable]. cbn in Hsc. intros [Hvalid _]. contradiction.
Qed.



Lemma fn_visitor_skips_witness :
  fn_visitor Sample.helper_decl initial_world
  = Done CXChildVisit_Continue (at_cursor Sample.helper_decl initial_world) /\
  stderr (at_cursor Sample.helper_decl initial_world) = [] /\
  (exists w',
      fn_visitor Sample.printf_decl initial_world = Done CXChildVisit_Continue w' /\
      stderr w'
      = ["sample.h line 3, column 1" ++ nl;
         "warning: skipping variadic function, not yet supported" ++ nl]) /\
  (exists w',
      fn_visitor Sample.stdcall_decl initial_world = Done CXChildVisit_Continue w' /\
      stderr w'
      = ["sample.h line 5, column 1" ++ nl;
         "warning: skipping non c calling convention function, not yet supported"
         ++ nl]).
Proof.
  split; [|split; [|split]].
  - apply (proj1 (fn_visitor_skips Sample.helper_decl initial_world eq_refl));
      discriminate.
  - reflexivity.
  - destruct (proj1 (proj2 (fn_visitor_skips Sample.printf_decl initial_world eq_refl)))
      as (Hrun & Herr & _).
    + right; left; reflexivity.
    + reflexivity.
    + eexists. split; [exact Hrun|]. rewrite Herr. reflexivity.
  - destruct (proj2 (proj2 (fn_visitor_skips Sample.stdcall_decl initial_world eq_refl)))
      as (Hrun & Herr & _).
    + left; reflexivity.
    + reflexivity.
    + discriminate.
    + eexists. split; [exact Hrun|]. rewrite Herr. reflexivity.
Defined.

(** The sample header from the declarations to the text. *)
Example sample_header_translated :
  exists w',
    (clang_visitChildren
       (Cursor CXCursor_UnexposedDecl "" (Sample.at_line 0) CX_SC_Invalid
          Sample.no_function_type Sample.header)
       fn_visitor ;;; end_fn ;;; emit) initial_world = Done tt w' /\
    f (parse_h w')
    = "extern {" ++ nl
      ++ "    fn add(a: i32, b: i32) -> i32;" ++ nl
      ++ "    fn log(msg: *const u8);" ++ nl
      ++ "}" ++ nl /\
    stderr w'
    = ["sample.h line 3, column 1" ++ nl;
       "warning: skipping variadic function, not yet supported" ++ nl].
Proof. eexists. split; [vm_compute; reflexivity|]. split; reflexivity. Qed.

(** ** From the declarations to the text *)

(** The collector writes nothing to the output stream and leaves the
    indentation alone. *)
Lemma fn_visitor_keeps_stream c w r w' :
  fn_visitor c w = Done r w' ->
  f (parse_h w') = f (parse_h w) /\ cur_indent (parse_h w') = cur_indent (parse_h w).
Proof.
  intros Hrun.
  destruct (is_ParmDecl c) eqn:Hparm.
  - rewrite (fn_visitor_parm_decl c w Hparm) in Hrun.
    destruct (cur_fn (parse_h w)) as [fn|]; [|discriminate].
    destruct (Nat.ltb (arg_index (parse_h w)) (arg_count fn)); [|discriminate].
    inversion Hrun; subst. split; reflexivity.
  - destruct (accepted c) eqn:Hacc.
    + pose proof (fn_visitor_accepted c w Hacc) as H. cbn zeta in H.
      rewrite Hrun in H. destruct H as (_ & T & tys & _ & _ & _ & _ & _ & Hf & Hi).
      split; assumption.
    + destruct c as [kind sp ext sc ty children].
      destruct kind; try discriminate Hparm;
        try (inversion Hrun; subst; split; reflexivity).
      pose proof (fn_visitor_skipped
                    (Cursor CXCursor_FunctionDecl sp ext sc ty children) w eq_refl Hacc)
        as H.
      rewrite Hrun in H. destruct H as (_ & Hf & _ & _ & _ & Hi).
      split; assumption.
Qed.

Lemma visit_cursor_keeps_stream c :
  forall w broken w',
    visit_cursor fn_visitor c w = Done broken w' ->
    f (parse_h w') = f (parse_h w) /\ cur_indent (parse_h w') = cur_indent (parse_h w).
Proof.
  induction c as [kind sp ext sc ty children IH] using CXCursor_tree_ind.
  intros w broken w' Hrun.
  rewrite visit_cursor_unfold in Hrun. unfold bind in Hrun.
  destruct (fn_visitor (Cursor kind sp ext sc ty children) w) as [r w1|e w1] eqn:Hhead;
    [|discriminate].
  apply fn_visitor_keeps_stream in Hhead. destruct Hhead as [Hf1 Hi1].
  destruct r; try (inversion Hrun; subst; split; assumption).
  cbn [cursor_children] in Hrun.
  revert w1 Hf1 Hi1 Hrun.
  induction IH as [|c children Hc _ IHchildren]; intros w1 Hf1 Hi1 Hrun.
  - inversion Hrun; subst. split; assumption.
  - cbn [visit_cursors] in Hrun. unfold bind in Hrun.
    destruct (visit_cursor fn_visitor c w1) as [b w2|e w2] eqn:Hc1; [|discriminate].
    apply Hc in Hc1. destruct Hc1 as [Hf2 Hi2].
    destruct b.
    + inversion Hrun; subst. split; congruence.
    + apply (IHchildren w2); congruence.
Qed.

Lemma visit_cursors_keeps_stream cs :
  forall w broken w',
    visit_cursors fn_visitor cs w = Done broken w' ->
    f (parse_h w') = f (parse_h w) /\ cur_indent (parse_h w') = cur_indent (parse_h w).
Proof.
  induction cs as [|c cs IH]; intros w broken w' Hrun.
  - inversion Hrun; subst. split; reflexivity.
  - cbn [visit_cursors] in Hrun. unfold bind in Hrun.
    destruct (visit_cursor fn_visitor c w) as [b w1|e w1] eqn:Hc; [|discriminate].
    apply visit_cursor_keeps_stream in Hc. destruct Hc as [Hf1 Hi1].
    destruct b.
    + inversion Hrun; subst. split; assumption.
    + apply IH in Hrun. destruct Hrun. split; congruence.
Qed.

Lemma report_diagnostics_done ds :
  forall w, exists w', report_diagnostics ds w = Done tt w'.
Proof.
  induction ds as [|d ds IH]; intros w.
  - exists w. reflexivity.
  - cbn [report_diagnostics]. unfold bind, fprintf_stderr. apply IH.
Qed.

(** C1: on a non-empty function list the emitter writes [extern {], one
    line per function in the order of the list, and [}].  A function's line
    is four spaces, [fn], the name, the arguments [name: type] in their
    order with [, ] between them in parentheses, then [ -> ] and the return
    type unless the return type is the text [void], then [;].  Nothing else
    is written, and nothing goes to the error stream.  This is what a run
    of [parse_h_file] that ends normally has written when it collected a
    function, and the functions [add] and [log] of the specification give
    its four lines. *)
Theorem emit_extern_block :
  (forall w,
      fn_list (parse_h w) <> [] ->
      cur_indent (parse_h w) = 0 ->
      exists w',
        emit w = Done tt w' /\
        f (parse_h w') = f (parse_h w) ++ extern_block (fn_list (parse_h w)) /\
        fn_list (parse_h w') = fn_list (parse_h w) /\
        stderr w' = stderr w) /\
  (forall getenv clang_parseTranslationUnit2 target_path clang_argv w argv' w',
      parse_h_file getenv clang_parseTranslationUnit2 target_path clang_argv w
      = Done argv' w' ->
      f (parse_h w')
      = f (parse_h w) ++ match fn_list (parse_h w') with
                         | [] => ""
                         | fns => extern_block fns
                         end) /\
  extern_block
    [ {| fn_name := "add"; return_type := "i32";
         args := [ {| arg_name := "a"; arg_type := "i32" |};
                   {| arg_name := "b"; arg_type := "i32" |} ] |};
      {| fn_name := "log"; return_type := "void";
         args := [ {| arg_name := "msg"; arg_type := "*const u8" |} ] |} ]
  = "extern {" ++ nl
    ++ "    fn add(a: i32, b: i32) -> i32;" ++ nl
    ++ "    fn log(msg: *const u8);" ++ nl
    ++ "}" ++ nl.
Proof.
  assert (Hemit : forall w,
             fn_list (parse_h w) <> [] ->
             cur_indent (parse_h w) = 0 ->
             exists w',
               emit w = Done tt w' /\
               f (parse_h w') = f (parse_h w) ++ extern_block (fn_list (parse_h w)) /\
               fn_list (parse_h w') = fn_list (parse_h w) /\
               stderr w' = stderr w).
  { intros w Hne Hindent.
    unfold emit, get_p. unfold bind at 1.
    destruct (fn_list (parse_h w)) as [|fn fns] eqn:Hfns; [congruence|].
    rewrite (bind_done _ _ _ _ _ (fprintf_f_run _ _)).
    unfold modify_p at 1. unfold bind at 1.
    erewrite bind_done
      by (apply emit_fns_run; simpl; rewrite Hindent; reflexivity).
    rewrite fprintf_f_run. eexists. split; [reflexivity|].
    cbn [f parse_h written set_f set_cur_indent stderr fn_list].
    rewrite Hfns. split; [|split; reflexivity].
    unfold extern_block.
    rewrite <- (fold_render_app (fn :: fns) ("}" ++ nl)).
    rewrite !CStr.append_assoc. reflexivity. }
  split; [exact Hemit|]. split; [|reflexivity].
  intros getenv clang_parse target_path clang_argv w argv' w' Hrun.
  unfold parse_h_file in Hrun. rewrite (bind_modify_p _ _ w) in Hrun.
  destruct (clang_parse _ _ _) as [code|tu]; [discriminate|].
  destruct (tu_diagnostics tu) as [|d ds].
  2:{ destruct (report_diagnostics_done (d :: ds)
                  {| parse_h := set_f (f (parse_h w)) zeroed_ParseH;
                     stderr := stderr w |}) as [w0 Hrep].
      rewrite (bind_done _ _ _ _ _ Hrep) in Hrun. discriminate. }
  unfold bind at 1 in Hrun. unfold clang_visitChildren in Hrun.
  match type of Hrun with
  | context [visit_cursors fn_visitor ?cs ?w0] =>
      destruct (visit_cursors fn_visitor cs w0) as [broken w1|e w1] eqn:Hvisit;
      [|discriminate]
  end.
  assert (Hstream : f (parse_h w1) = f (parse_h w) /\ cur_indent (parse_h w1) = 0).
  { apply visit_cursors_keeps_stream in Hvisit. exact Hvisit. }
  destruct Hstream as [Hf1 Hi1].
  rewrite (bind_done _ _ _ _ _ (end_fn_run _)) in Hrun.
  unfold bind at 1 in Hrun.
  match type of Hrun with
  | context [emit ?w2] =>
      destruct (fn_list (parse_h w2)) as [|fn fns] eqn:Hfns;
      [ assert (Hnone : emit w2 = Done tt w2)
          by (unfold emit; rewrite bind_get_p, Hfns; reflexivity);
        rewrite Hnone in Hrun
      | destruct (Hemit w2) as (w3 & Hrun3 & Hf3 & Hl3 & _);
        [ rewrite Hfns; discriminate | exact Hi1 | rewrite Hrun3 in Hrun ] ]
  end.
  - inversion Hrun; subst. rewrite Hfns.
    cbn [parse_h f set_cur_fn set_fn_list]. rewrite Hf1, CStr.append_empty_r.
    reflexivity.
  - inversion Hrun; subst. rewrite Hl3, Hf3, Hfns.
    cbn [parse_h f set_cur_fn set_fn_list]. rewrite Hf1. reflexivity.
Qed.

Lemma emit_extern_block_witness :
  exists w',
    emit {| parse_h :=
              set_fn_list
                [ {| fn_name := "log"; return_type := "void";
                     args := [ {| arg_name := "msg"; arg_type := "*const u8" |} ] |} ]
                zeroed_ParseH;
            stderr := [] |} = Done tt w' /\
    f (parse_h w') = "extern {" ++ nl ++ "    fn log(msg: *const u8);" ++ nl ++ "}" ++ nl.
Proof.
  destruct (proj1 emit_extern_block
              {| parse_h :=
                   set_fn_list
                     [ {| fn_name := "log"; return_type := "void";
                          args := [ {| arg_name := "msg"; arg_type := "*const u8" |} ] |} ]
                     zeroed_ParseH;
                 stderr := [] |}) as (w' & Hrun & Hf & _).
  - simpl. discriminate.
  - reflexivity.
  - exists w'. split; [exact Hrun|]. rewrite Hf. reflexivity.
Defined.

(** ** Where the contracts end *)

(** A function declaration without a storage class, which libclang does not
    produce, ends the run in [zig_unreachable]. *)
Example invalid_storage_class_unreachable :
  fn_visitor (Sample.function 7 "f" CX_SC_Invalid false Sample.int_type [])
    initial_world
  = Aborted Abort_unreachable
      (at_cursor (Sample.function 7 "f" CX_SC_Invalid false Sample.int_type [])
         initial_world).
Proof. reflexivity. Qed.

(** A static variadic function is dropped by the storage-class check,
    before the check that warns. *)
Example static_variadic_silent :
  stderr (at_cursor Sample.helper_decl initial_world) = [] /\
  visit_cursors fn_visitor [Sample.helper_decl] initial_world
  = Done false (at_cursor Sample.helper_decl initial_world).
Proof. split; reflexivity. Qed.

(** A parameter declaration that is not a child of an accepted function
    declaration, here of a variable of function-pointer type, fails the
    first assertion; one more parameter declaration than the function type
    has parameters fails the second. *)
Example parameter_outside_function_asserts :
  well_formed
    (Cursor CXCursor_VarDecl "handler" (Sample.at_line 9) CX_SC_Extern
       Sample.no_function_type [Sample.parm 9 "sig"]) = false /\
  (exists w',
      visit_cursor fn_visitor
        (Cursor CXCursor_VarDecl "handler" (Sample.at_line 9) CX_SC_Extern
           Sample.no_function_type [Sample.parm 9 "sig"]) initial_world
      = Aborted (Abort_assert "p->cur_fn") w') /\
  (exists w',
      visit_cursors fn_visitor
        [Sample.add_decl;
         Cursor CXCursor_VarDecl "handler" (Sample.at_line 9) CX_SC_Extern
           Sample.no_function_type [Sample.parm 9 "sig"]] initial_world
      = Aborted (Abort_assert "p->arg_index < p->cur_fn->arg_count") w').
Proof.
  split; [reflexivity|]. split; eexists; vm_compute; reflexivity.
Qed.

(** ** A parameter declaration outside a function *)

(** C5: the claim does not hold of the code.  [fn_visitor] asks for the
    children of a variable declaration (the [default] case), so the
    parameter declaration of a variable of function-pointer type is visited
    although it belongs to no function: with no function current the first
    assertion of the parameter branch fails, and with a current function
    that has all its names the second one fails.  This is so in every such
    state, and in whole runs of [parse_h_file] on a header that declares
    such a variable, alone or after a function.  The same parameter
    declaration under a typedef or a field declaration is never reached,
    because those cases return [CXChildVisit_Continue]. *)
Theorem parameter_under_variable_fails_assertion :
  (forall w,
      cur_fn (parse_h w) = None ->
      visit_cursor fn_visitor Sample.handler_decl w
      = Aborted (Abort_assert "p->cur_fn")
          (at_cursor (Sample.parm 9 "sig") (at_cursor Sample.handler_decl w))) /\
  (forall w fn,
      cur_fn (parse_h w) = Some fn ->
      arg_count fn <= arg_index (parse_h w) ->
      visit_cursor fn_visitor Sample.handler_decl w
      = Aborted (Abort_assert "p->arg_index < p->cur_fn->arg_count")
          (at_cursor (Sample.parm 9 "sig") (at_cursor Sample.handler_decl w))) /\
  (exists w',
      parse_h_file (fun _ => None)
        (fun _ _ _ =>
           inr {| tu_diagnostics := [];
                  tu_cursor :=
                    Cursor CXCursor_UnexposedDecl "" (Sample.at_line 0) CX_SC_Invalid
                      Sample.no_function_type [Sample.handler_decl] |})
        "signal.h" [] initial_world
      = Aborted (Abort_assert "p->cur_fn") w') /\
  (exists w',
      parse_h_file (fun _ => None)
        (fun _ _ _ =>
           inr {| tu_diagnostics := [];
                  tu_cursor :=
                    Cursor CXCursor_UnexposedDecl "" (Sample.at_line 0) CX_SC_Invalid
                      Sample.no_function_type [Sample.add_decl; Sample.handler_decl] |})
        "signal.h" [] initial_world
      = Aborted (Abort_assert "p->arg_index < p->cur_fn->arg_count") w') /\
  (forall w,
      visit_cursor fn_visitor Sample.handler_typedef w
      = Done false (at_cursor Sample.handler_typedef w) /\
      visit_cursor fn_visitor Sample.handler_field w
      = Done false (at_cursor Sample.handler_field w)).
Proof.
  assert (Hvar : forall w,
             visit_cursor fn_visitor Sample.handler_decl w
             = match fn_visitor (Sample.parm 9 "sig") (at_cursor Sample.handler_decl w) with
               | Done _ w' => Done false w'
               | Aborted e w' => Aborted e w'
               end).
  { intros w. rewrite visit_cursor_unfold.
    change (fn_visitor Sample.handler_decl)
      with (fun w0 => Done CXChildVisit_Recurse (at_cursor Sample.handler_decl w0)).
    unfold bind at 1. cbn [cursor_children Sample.handler_decl visit_cursors].
    unfold bind at 1. rewrite visit_cursor_unfold. unfold bind at 1.
    rewrite (fn_visitor_parm_decl (Sample.parm 9 "sig") _ eq_refl).
    cbn [parse_h cur_fn arg_index at_cursor set_location set_range].
    destruct (cur_fn (parse_h w)) as [fn|]; [|reflexivity].
    destruct (Nat.ltb (arg_index (parse_h w)) (arg_count fn)); reflexivity. }
  split; [|split; [|split; [|split]]].
  - intros w Hcur. rewrite Hvar.
    rewrite (fn_visitor_parm_decl (Sample.parm 9 "sig") _ eq_refl).
    cbn [parse_h cur_fn at_cursor set_location set_range]. rewrite Hcur. reflexivity.
  - intros w fn Hcur Hfull. rewrite Hvar.
    rewrite (fn_visitor_parm_decl (Sample.parm 9 "sig") _ eq_refl).
    cbn [parse_h cur_fn arg_index at_cursor set_location set_range]. rewrite Hcur.
    apply Nat.ltb_ge in Hfull. rewrite Hfull. reflexivity.
  - eexists. vm_compute. reflexivity.
  - eexists. vm_compute. reflexivity.
  - intros w. split; reflexivity.
Qed.

Lemma parameter_under_variable_fails_assertion_witness :
  visit_cursor fn_visitor Sample.handler_decl initial_world
  = Aborted (Abort_assert "p->cur_fn")
      (at_cursor (Sample.parm 9 "sig") (at_cursor Sample.handler_decl initial_world)) /\
  visit_cursor fn_visitor Sample.handler_decl
    {| parse_h :=
         set_cur_fn
           (Some {| fn_name := "add"; return_type := "i32";
                    args := [ {| arg_name := "a"; arg_type := "i32" |} ] |})
           (set_arg_index 1 zeroed_ParseH);
       stderr := [] |}
  = Aborted (Abort_assert "p->arg_index < p->cur_fn->arg_count")
      (at_cursor (Sample.parm 9 "sig")
         (at_cursor Sample.handler_decl
            {| parse_h :=
                 set_cur_fn
                   (Some {| fn_name := "add"; return_type := "i32";
                            args := [ {| arg_name := "a"; arg_type := "i32" |} ] |})
                   (set_arg_index 1 zeroed_ParseH);
               stderr := [] |})).
Proof.
  split.
  - apply (proj1 parameter_under_variable_fails_assertion initial_world). reflexivity.
  - apply (proj1 (proj2 parameter_under_variable_fails_assertion) _
             {| fn_name := "add"; return_type := "i32";
                args := [ {| arg_name := "a"; arg_type := "i32" |} ] |}).
    + reflexivity.
    + exact (le_n 1).
Defined.

(** * Further properties of the code *)

(** ** Strings *)

Lemma has_space_append a b : has_space (a ++ b) = has_space a || has_space b.
Proof.
  induction a as [|c a IH]; cbn [String.append has_space]; [reflexivity|].
  rewrite IH, orb_assoc. reflexivity.
Qed.

Lemma prefixes_have_space prefix : In prefix prefixes -> has_space prefix = true.
Proof.
  unfold prefixes. cbn [In].
  intros [ <- | [ <- | [ <- | [] ] ] ]; reflexivity.
Qed.

Lemma first_prefix_of_prefixed prefix rest :
  In prefix prefixes -> first_prefix prefixes (prefix ++ rest) = Some prefix.
Proof.
  unfold prefixes. cbn [In].
  intros [ <- | [ <- | [ <- | [] ] ] ]; reflexivity.
Qed.

Lemma strip_c_name_prefixed prefix rest :
  In prefix prefixes -> strip_c_name (prefix ++ rest) = strip_c_name rest.
Proof.
  intros Hin.
  rewrite (strip_c_name_found _ _ (first_prefix_of_prefixed prefix rest Hin)).
  unfold CStr.strlen. rewrite CStr.advance_append. reflexivity.
Qed.

Lemma strip_c_name_qualified quals name :
  Forall (fun q => In q prefixes) quals ->
  strip_c_name (qualified quals name) = strip_c_name name.
Proof.
  induction 1 as [|q quals Hq _ IH]; [reflexivity|].
  cbn [qualified fold_right]. rewrite strip_c_name_prefixed by exact Hq.
  exact IH.
Qed.

Lemma strip_c_name_no_space c_name :
  has_space c_name = false -> strip_c_name c_name = c_name.
Proof.
  intros Hno. apply strip_c_name_clean, first_prefix_none.
  intros prefix Hin.
  destruct (str_has_prefix c_name prefix) eqn:Hp; [|reflexivity].
  apply str_has_prefix_app in Hp. destruct Hp as [rest ->].
  rewrite has_space_append, (prefixes_have_space _ Hin) in Hno. discriminate.
Qed.

(** X1: [str_has_prefix] answers true exactly when the string starts with
    the prefix; in particular every string has the empty prefix, and a
    string shorter than the prefix never has it. *)
Theorem str_has_prefix_exact (str prefix : string) :
  (str_has_prefix str prefix = true <-> exists rest, str = prefix ++ rest) /\
  str_has_prefix str "" = true /\
  (String.length str < String.length prefix -> str_has_prefix str prefix = false).
Proof.
  split; [|split].
  - split.
    + apply str_has_prefix_app.
    + intros [rest ->]. apply str_has_prefix_of_app.
  - reflexivity.
  - intros Hshort.
    destruct (str_has_prefix str prefix) eqn:Hp; [|reflexivity].
    apply str_has_prefix_app in Hp. destruct Hp as [rest ->].
    rewrite CStr.length_append in Hshort. lia.
Qed.

Lemma str_has_prefix_exact_witness :
  str_has_prefix "enum" "enum " = false /\
  str_has_prefix "enum E" "enum " = true.
Proof.
  split.
  - apply (proj2 (proj2 (str_has_prefix_exact "enum" "enum "))). simpl. lia.
  - apply (proj1 (str_has_prefix_exact "enum E" "enum ")). exists "E". reflexivity.
Defined.

(** X2: qualifiers of the table written in front of a name, in any number
    and order, do not change what the name is cleaned to; a table entry at
    the front is always the one that is removed. *)
Theorem qualifiers_do_not_matter (quals : list string) (name : string) :
  Forall (fun q => In q prefixes) quals ->
  strip_c_name (qualified quals name) = strip_c_name name /\
  (forall q, In q prefixes -> first_prefix prefixes (q ++ name) = Some q) /\
  (has_space name = false -> strip_c_name (qualified quals name) = name).
Proof.
  intros Hquals. split; [|split].
  - apply strip_c_name_qualified, Hquals.
  - intros q Hq. apply first_prefix_of_prefixed, Hq.
  - intros Hno. rewrite strip_c_name_qualified by exact Hquals.
    apply strip_c_name_no_space, Hno.
Qed.

Lemma qualifiers_do_not_matter_witness :
  strip_c_name "const enum const struct Color" = "Color".
Proof.
  apply (proj2 (proj2 (qualifiers_do_not_matter
                         ["const "; "enum "; "const "; "struct "] "Color"
                         ltac:(repeat constructor; simpl; tauto)))).
  reflexivity.
Defined.

Lemma qualified_grows quals tail :
  String.length tail <= String.length (qualified quals tail) /\
  (has_space tail = true -> has_space (qualified quals tail) = true).
Proof.
  induction quals as [|q quals [IHlen IHsp]]; cbn [qualified fold_right].
  - split; [lia|tauto].
  - fold (qualified quals tail). split.
    + rewrite CStr.length_append. lia.
    + intros H. rewrite has_space_append, (IHsp H). apply orb_true_r.
Qed.

(** X3: a spelling without a space is returned as it is, and cleaning
    only ever removes a front part: what is returned is never longer than
    the spelling and holds a space only if the spelling did. *)
Theorem strip_c_name_only_shortens (c_name : string) :
  (has_space c_name = false -> strip_c_name c_name = c_name) /\
  String.length (strip_c_name c_name) <= String.length c_name /\
  (has_space (strip_c_name c_name) = true -> has_space c_name = true).
Proof.
  split; [apply strip_c_name_no_space|].
  destruct (strip_c_name_removed c_name) as (removed & _ & Heq).
  fold (qualified removed (strip_c_name c_name)) in Heq.
  destruct (qualified_grows removed (strip_c_name c_name)) as [Hlen Hsp].
  rewrite <- Heq in Hlen, Hsp. split; assumption.
Qed.

Lemma strip_c_name_only_shortens_witness :
  strip_c_name "uint32_t" = "uint32_t".
Proof.
  apply (proj1 (strip_c_name_only_shortens "uint32_t")). reflexivity.
Defined.

(** ** The classifier *)

Lemma erred_nil w : erred [] w = w.
Proof. destruct w. unfold erred. cbn. rewrite app_nil_r. reflexivity. Qed.

Lemma erred_erred a b w : erred b (erred a w) = erred (a ++ b) w.
Proof. unfold erred. cbn. rewrite app_assoc. reflexivity. Qed.

(** What a classification does is decided by the type and by the location
    recorded in the state: the value or the abort by the type alone, the
    lines for the error stream by both. *)
Lemma to_zig_type_shape (t : CXType) :
  exists (r : Buf + abort) (lines : CXSourceLocation -> list string),
    (forall w, to_zig_type t w = finish r (erred (lines (location (parse_h w))) w)) /\
    match r with
    | inl _ => True
    | inr e => e = Abort_unreachable \/ exists msg, e = Abort_panic msg
    end.
Proof.
  induction t as [|kind sp q canonical IHc pointee IHp element IHe size underlying IHu].
  - exists (inr Abort_unreachable), (fun _ => []). split; [|left; reflexivity].
    intros w. rewrite erred_nil. reflexivity.
  - destruct kind; cbn [to_zig_type];
      try (eexists (inl _), (fun _ => []); split; [|exact I];
           intros w; rewrite erred_nil; reflexivity);
      try (exists (inr Abort_unreachable), (fun _ => []); split; [|left; reflexivity];
           intros w; rewrite erred_nil; reflexivity);
      try (eexists (inr (Abort_panic _)), (fun l => [location_line l]);
           split; [|right; eexists; reflexivity];
           intros w; reflexivity).
    + (* unexposed *)
      destruct canonical as [|ck ? ? ? ? ? ? ?]; [exact IHc|].
      destruct ck; try exact IHc.
      eexists (inr (Abort_panic _)), (fun _ => []). split; [|right; eexists; reflexivity].
      intros w. rewrite erred_nil. reflexivity.
    + (* pointer *)
      destruct IHp as ([T|e] & lines & Hrun & Habort).
      * eexists (inl _), lines. split; [|exact I].
        intros w. unfold bind. rewrite Hrun. reflexivity.
      * exists (inr e), lines. split; [|exact Habort].
        intros w. unfold bind. rewrite Hrun. reflexivity.
    + (* typedef *)
      destruct (typedef_shortcut _).
      * eexists (inl _), (fun _ => []). split; [|exact I].
        intros w. rewrite erred_nil. reflexivity.
      * exact IHu.
    + (* function prototype *)
      eexists (inl _), (fun l => ["warning: TODO function proto" ++ nl; location_line l]).
      split; [|exact I]. intros w. unfold erred, bind, fprintf_stderr, print_location.
      cbn. rewrite <- app_assoc. reflexivity.
    + (* constant array *)
      destruct IHe as ([T|e] & lines & Hrun & Habort).
      * eexists (inl _), lines. split; [|exact I].
        intros w. unfold bind. rewrite Hrun. reflexivity.
      * exists (inr e), lines. split; [|exact Habort].
        intros w. unfold bind. rewrite Hrun. reflexivity.
    + (* incomplete array *)
      destruct IHe as ([T|e] & lines & Hrun & Habort).
      * eexists (inl _), lines. split; [|exact I].
        intros w. unfold bind. rewrite Hrun. reflexivity.
      * exists (inr e), lines. split; [|exact Habort].
        intros w. unfold bind. rewrite Hrun. reflexivity.
Qed.

(** X4: [void], [bool], the character kinds and the floating kinds classify
    as [void], [bool], [i8] for [signed char], [u8] for [unsigned char] and
    for plain [char] whatever its signedness, [f32], [f64] and [f128];
    nothing is written and the state stays as it is. *)
Theorem scalar_kinds_named (raw_type : CXType) (w : World) :
  forall kind name,
    In (kind, name) scalar_kinds ->
    type_kind raw_type = kind ->
    to_zig_type raw_type w = Done name w.
Proof.
  intros kind name Hin Hkind.
  destruct raw_type as [|k sp q c p e n u]; simpl in Hkind; subst kind;
    simpl in Hin.
  - repeat (destruct Hin as [Hin|Hin]; [discriminate|]). contradiction.
  - repeat (destruct Hin as [Hin|Hin]; [inversion Hin; subst; reflexivity|]).
    contradiction.
Qed.

Lemma scalar_kinds_named_witness :
  to_zig_type (Sample.scalar CXType_Char_S "char" false) initial_world
  = Done "u8" initial_world.
Proof.
  apply (scalar_kinds_named (Sample.scalar CXType_Char_S "char" false) initial_world
           CXType_Char_S "u8").
  - simpl. tauto.
  - reflexivity.
Defined.

(** X5: a type of a kind without translation (wide and UTF characters,
    128-bit integers, functions without prototype, block pointers,
    vectors, references, variable and dependent arrays, member pointers,
    the Objective-C kinds, [nullptr_t], overloads, dependent and complex
    types) stops the run: the location line is written to the error
    stream, then the run panics with the message of the kind. *)
Theorem unsupported_kinds_panic (raw_type : CXType) (w : World) :
  forall kind msg,
    In (kind, msg) todo_kinds ->
    type_kind raw_type = kind ->
    to_zig_type raw_type w
    = Aborted (Abort_panic msg) (erred [location_line (location (parse_h w))] w).
Proof.
  intros kind msg Hin Hkind.
  destruct raw_type as [|k sp q c p e n u]; simpl in Hkind; subst kind;
    simpl in Hin.
  - repeat (destruct Hin as [Hin|Hin]; [discriminate|]). contradiction.
  - repeat (destruct Hin as [Hin|Hin]; [inversion Hin; subst; reflexivity|]).
    contradiction.
Qed.

Lemma unsupported_kinds_panic_witness :
  to_zig_type (Sample.scalar CXType_Int128 "__int128" false) initial_world
  = Aborted (Abort_panic "TODO int128")
      {| parse_h := zeroed_ParseH; stderr := [" line 0, column 0" ++ nl] |}.
Proof.
  apply (unsupported_kinds_panic (Sample.scalar CXType_Int128 "__int128" false)
           initial_world CXType_Int128 "TODO int128").
  - simpl. tauto.
  - reflexivity.
Defined.

(** X6: an unexposed type classifies as its canonical type does, with the
    same lines and the same abort if there is one; when the canonical type
    is unexposed too the run panics at once, without a location line. *)
Theorem unexposed_resolves_to_canonical (raw_type : CXType) (w : World) :
  type_kind raw_type = CXType_Unexposed ->
  (type_kind (clang_getCanonicalType raw_type) = CXType_Unexposed ->
   to_zig_type raw_type w = Aborted (Abort_panic "clang C api insufficient") w) /\
  (type_kind (clang_getCanonicalType raw_type) <> CXType_Unexposed ->
   to_zig_type raw_type w = to_zig_type (clang_getCanonicalType raw_type) w).
Proof.
  intros Hkind.
  destruct raw_type as [|k sp q c p e n u]; simpl in Hkind; [discriminate|subst k].
  cbn [clang_getCanonicalType to_zig_type]. split.
  - intros Hc. rewrite Hc. reflexivity.
  - intros Hc. destruct (type_kind c); try reflexivity. congruence.
Qed.

Lemma unexposed_resolves_to_canonical_witness :
  to_zig_type
    (CXType_of CXType_Unexposed "size_t" false Sample.ulong_type CXType_none
       CXType_none (-1) CXType_none) initial_world
  = Done "c_ulong" initial_world.
Proof.
  rewrite (proj2 (unexposed_resolves_to_canonical
                    (CXType_of CXType_Unexposed "size_t" false Sample.ulong_type
                       CXType_none CXType_none (-1) CXType_none)
                    initial_world eq_refl)).
  - reflexivity.
  - discriminate.
Defined.

(** X7: a function prototype type is not translated: a warning line and
    then the location line are written, and the type stands as
    [*const u8]; a pointer to a function therefore classifies as
    [*mut *const u8], or [*const *const u8] when the function type is
    const-qualified. *)
Theorem function_proto_placeholder (raw_type : CXType) (w : World) :
  let lines := ["warning: TODO function proto" ++ nl;
                location_line (location (parse_h w))] in
  (type_kind raw_type = CXType_FunctionProto ->
   to_zig_type raw_type w = Done "*const u8" (erred lines w)) /\
  (type_kind raw_type = CXType_Pointer ->
   type_kind (clang_getPointeeType raw_type) = CXType_FunctionProto ->
   to_zig_type raw_type w
   = Done (if clang_isConstQualifiedType (clang_getPointeeType raw_type)
           then "*const *const u8" else "*mut *const u8") (erred lines w)).
Proof.
  intros lines.
  assert (Hproto : forall t,
             type_kind t = CXType_FunctionProto ->
             to_zig_type t w = Done "*const u8" (erred lines w)).
  { intros t Hkind.
    destruct t as [|k sp q c p e n u]; simpl in Hkind; [discriminate|subst k].
    unfold lines, erred. cbn. rewrite <- app_assoc. reflexivity. }
  split; [apply Hproto|].
  intros Hkind Hpointee.
  destruct raw_type as [|k sp q c p e n u]; simpl in Hkind; [discriminate|subst k].
  cbn [clang_getPointeeType] in *. cbn [to_zig_type]. unfold bind.
  rewrite (Hproto p Hpointee). unfold ret, pointer_to.
  destruct (clang_isConstQualifiedType p); reflexivity.
Qed.

Lemma function_proto_placeholder_witness :
  to_zig_type
    (Sample.pointer "callback" (Sample.scalar CXType_FunctionProto "void (int)" false))
    initial_world
  = Done "*mut *const u8"
      {| parse_h := zeroed_ParseH;
         stderr := ["warning: TODO function proto" ++ nl;
                    " line 0, column 0" ++ nl] |}.
Proof.
  apply (proj2 (function_proto_placeholder
                  (Sample.pointer "callback"
                     (Sample.scalar CXType_FunctionProto "void (int)" false))
                  initial_world)); reflexivity.
Defined.

(** X8: a classification never touches the collector's state, only adds
    lines to the error stream, and stops a run only by a panic or by
    [zig_unreachable]; the type it gives, or the abort, is the same in
    every state. *)
Theorem to_zig_type_effects (raw_type : CXType) (w1 w2 : World) :
  match to_zig_type raw_type w1, to_zig_type raw_type w2 with
  | Done T1 w1', Done T2 w2' =>
      T1 = T2 /\
      parse_h w1' = parse_h w1 /\ parse_h w2' = parse_h w2 /\
      (exists lines, stderr w1' = (stderr w1 ++ lines)%list) /\
      (location (parse_h w1) = location (parse_h w2) ->
       exists lines, stderr w1' = (stderr w1 ++ lines)%list
                     /\ stderr w2' = (stderr w2 ++ lines)%list)
  | Aborted e1 w1', Aborted e2 w2' =>
      e1 = e2 /\
      (e1 = Abort_unreachable \/ exists msg, e1 = Abort_panic msg) /\
      parse_h w1' = parse_h w1 /\ parse_h w2' = parse_h w2 /\
      (exists lines, stderr w1' = (stderr w1 ++ lines)%list)
  | _, _ => False
  end.
Proof.
  destruct (to_zig_type_shape raw_type) as (r & lines & Hrun & Habort).
  rewrite (Hrun w1), (Hrun w2).
  destruct r as [T|e]; cbn [finish erred parse_h stderr].
  - split; [reflexivity|]. do 2 (split; [reflexivity|]).
    split; [eexists; reflexivity|].
    intros Hloc. rewrite Hloc. eexists. split; reflexivity.
  - split; [reflexivity|]. split; [exact Habort|].
    do 2 (split; [reflexivity|]). eexists; reflexivity.
Qed.

(** X9: the const qualification of the type that is classified plays no
    part, only that of a pointee or element does: [const int] classifies
    as [int] does, and a const pointer as the pointer. *)
Theorem top_level_const_ignored kind spelling canonical pointee element size
    underlying (w : World) :
  to_zig_type (CXType_of kind spelling true canonical pointee element size underlying) w
  = to_zig_type (CXType_of kind spelling false canonical pointee element size underlying) w.
Proof.
  destruct kind; reflexivity.
Qed.

(** X10: qualifiers in front of a fixed-width alias do not keep the
    typedef from being taken by its name: a typedef spelled [const uint8_t]
    or [const struct int32_t] classifies as the alias does, whatever it
    stands for. *)
Theorem typedef_shortcut_through_qualifiers (raw_type : CXType) (w : World) :
  forall quals alias sized,
    type_kind raw_type = CXType_Typedef ->
    Forall (fun q => In q prefixes) quals ->
    In (alias, sized) fixed_width_aliases ->
    clang_getTypeSpelling raw_type = qualified quals alias ->
    to_zig_type raw_type w = Done sized w.
Proof.
  intros quals alias sized Hkind Hquals Hin Hsp.
  destruct raw_type as [|k sp q c p e n u]; simpl in Hkind; [discriminate|subst k].
  cbn [clang_getTypeSpelling] in Hsp. subst sp.
  cbn [to_zig_type]. unfold prefixes_stripped. cbn [clang_getTypeSpelling].
  rewrite strip_c_name_qualified by exact Hquals.
  assert (Hclean : strip_c_name alias = alias).
  { apply strip_c_name_no_space. simpl in Hin.
    repeat (destruct Hin as [Hin|Hin]; [inversion Hin; subst; reflexivity|]).
    contradiction. }
  rewrite Hclean, (typedef_shortcut_alias _ _ Hin). reflexivity.
Qed.

Lemma typedef_shortcut_through_qualifiers_witness :
  to_zig_type (Sample.typedef "const const int64_t" true Sample.double_type)
    initial_world
  = Done "i64" initial_world.
Proof.
  apply (typedef_shortcut_through_qualifiers
           (Sample.typedef "const const int64_t" true Sample.double_type)
           initial_world ["const "; "const "] "int64_t" "i64").
  - reflexivity.
  - repeat constructor; simpl; tauto.
  - simpl. tauto.
  - reflexivity.
Defined.

(** X11: a record or an enum classifies as its spelling without the
    qualifiers in front, with nothing written: the result starts with none
    of [struct ], [enum ], [const ], and is the bare name when the name
    holds no space. *)
Theorem record_and_enum_by_name (raw_type : CXType) (w : World) :
  type_kind raw_type = CXType_Record \/ type_kind raw_type = CXType_Enum ->
  to_zig_type raw_type w = Done (strip_c_name (clang_getTypeSpelling raw_type)) w /\
  (forall prefix,
      In prefix prefixes ->
      str_has_prefix (strip_c_name (clang_getTypeSpelling raw_type)) prefix = false) /\
  (forall quals name,
      Forall (fun q => In q prefixes) quals ->
      has_space name = false ->
      clang_getTypeSpelling raw_type = qualified quals name ->
      to_zig_type raw_type w = Done name w).
Proof.
  intros Hkind.
  assert (Hrun : to_zig_type raw_type w
                 = Done (strip_c_name (clang_getTypeSpelling raw_type)) w).
  { destruct raw_type as [|k sp q c p e n u]; simpl in Hkind.
    - destruct Hkind; discriminate.
    - destruct Hkind; subst k; reflexivity. }
  split; [exact Hrun|]. split.
  - intros prefix Hin.
    exact (proj1 (first_prefix_none _ _) (strip_c_name_result_clean _) _ Hin).
  - intros quals name Hquals Hno Hsp.
    rewrite Hrun, Hsp, strip_c_name_qualified by exact Hquals.
    rewrite strip_c_name_no_space by exact Hno. reflexivity.
Qed.

Lemma record_and_enum_by_name_witness :
  to_zig_type (Sample.scalar CXType_Record "const struct Foo" true) initial_world
  = Done "Foo" initial_world.
Proof.
  apply (proj2 (proj2 (record_and_enum_by_name
                         (Sample.scalar CXType_Record "const struct Foo" true)
                         initial_world (or_introl eq_refl)))
           ["const "; "struct "] "Foo").
  - repeat constructor; simpl; tauto.
  - reflexivity.
  - reflexivity.
Defined.

(** ** The collector *)

Lemma fn_visitor_outcome c w r w' :
  fn_visitor c w = Done r w' ->
  r <> CXChildVisit_Break /\
  exists more, fn_list (parse_h w') = (fn_list (parse_h w) ++ more)%list.
Proof.
  intros Hrun.
  destruct (is_ParmDecl c) eqn:Hparm.
  - rewrite (fn_visitor_parm_decl c w Hparm) in Hrun.
    destruct (cur_fn (parse_h w)) as [fn|]; [|discriminate].
    destruct (Nat.ltb (arg_index (parse_h w)) (arg_count fn)); [|discriminate].
    inversion Hrun; subst. split; [discriminate|].
    exists []. rewrite app_nil_r. reflexivity.
  - destruct (accepted c) eqn:Hacc.
    + pose proof (fn_visitor_accepted c w Hacc) as H. cbn zeta in H.
      rewrite Hrun in H. destruct H as (-> & T & tys & _ & _ & _ & Hl & _).
      split; [discriminate|]. rewrite Hl. unfold collected. eexists. reflexivity.
    + destruct c as [kind sp ext sc ty children].
      destruct kind; try discriminate Hparm;
        try (inversion Hrun; subst; split; [discriminate|];
             exists []; rewrite app_nil_r; reflexivity).
      pose proof (fn_visitor_skipped
                    (Cursor CXCursor_FunctionDecl sp ext sc ty children) w eq_refl Hacc)
        as H.
      rewrite Hrun in H. destruct H as (-> & _ & Hl & _).
      split; [discriminate|]. exists []. rewrite app_nil_r. exact Hl.
Qed.

Lemma visit_cursors_outcome_from (children : list CXCursor) :
  Forall (fun c => forall w broken w',
              visit_cursor fn_visitor c w = Done broken w' ->
              broken = false /\
              exists more, fn_list (parse_h w') = (fn_list (parse_h w) ++ more)%list)
    children ->
  forall w broken w',
    visit_cursors fn_visitor children w = Done broken w' ->
    broken = false /\
    exists more, fn_list (parse_h w') = (fn_list (parse_h w) ++ more)%list.
Proof.
  induction 1 as [|c children Hc _ IH]; intros w broken w' Hrun.
  - inversion Hrun; subst. split; [reflexivity|].
    exists []. rewrite app_nil_r. reflexivity.
  - cbn [visit_cursors] in Hrun. unfold bind in Hrun.
    destruct (visit_cursor fn_visitor c w) as [b w1|e w1] eqn:Hc1; [|discriminate].
    apply Hc in Hc1. destruct Hc1 as [-> [more1 Hl1]].
    apply IH in Hrun. destruct Hrun as [-> [more2 Hl2]].
    split; [reflexivity|]. exists (more1 ++ more2)%list.
    rewrite Hl2, Hl1, app_assoc. reflexivity.
Qed.

Lemma visit_cursor_outcome c :
  forall w broken w',
    visit_cursor fn_visitor c w = Done broken w' ->
    broken = false /\
    exists more, fn_list (parse_h w') = (fn_list (parse_h w) ++ more)%list.
Proof.
  induction c as [kind sp ext sc ty children IH] using CXCursor_tree_ind.
  intros w broken w' Hrun.
  rewrite visit_cursor_unfold in Hrun. unfold bind in Hrun.
  destruct (fn_visitor (Cursor kind sp ext sc ty children) w) as [r w1|e w1] eqn:Hhead;
    [|discriminate].
  apply fn_visitor_outcome in Hhead. destruct Hhead as [Hr [more1 Hl1]].
  destruct r.
  - congruence.
  - inversion Hrun; subst. split; [reflexivity|]. exists more1. exact Hl1.
  - cbn [cursor_children] in Hrun.
    apply (visit_cursors_outcome_from children IH) in Hrun.
    destruct Hrun as [-> [more2 Hl2]]. split; [reflexivity|].
    exists (more1 ++ more2)%list. rewrite Hl2, Hl1, app_assoc. reflexivity.
Qed.

(** X12: [end_fn] never fails: it moves the current function, if there is
    one, to the end of the list and leaves none current, so a second
    [end_fn] changes nothing and a [begin_fn] after it always passes its
    assertion.  [begin_fn] on a state with a current function fails the
    assertion, so two in a row always do. *)
Theorem end_fn_then_begin_fn (w : World) :
  (exists w1,
      end_fn w = Done tt w1 /\
      cur_fn (parse_h w1) = None /\
      fn_list (parse_h w1) = collected (parse_h w) /\
      f (parse_h w1) = f (parse_h w) /\ stderr w1 = stderr w) /\
  (end_fn ;;; end_fn) w = end_fn w /\
  (exists w2,
      (end_fn ;;; begin_fn) w = Done tt w2 /\
      cur_fn (parse_h w2) = Some zeroed_Fn /\
      fn_list (parse_h w2) = collected (parse_h w)) /\
  (forall fn,
      cur_fn (parse_h w) = Some fn ->
      begin_fn w = Aborted (Abort_assert "!p->cur_fn") w) /\
  (exists w3, (begin_fn ;;; begin_fn) w = Aborted (Abort_assert "!p->cur_fn") w3).
Proof.
  split; [|split; [|split; [|split]]].
  - eexists. split; [apply end_fn_run|]. repeat split.
  - rewrite (bind_done _ _ _ _ _ (end_fn_run w)), !end_fn_run.
    unfold collected. cbn [parse_h cur_fn fn_list set_cur_fn set_fn_list].
    rewrite app_nil_r. reflexivity.
  - eexists. rewrite (bind_done _ _ _ _ _ (end_fn_run w)).
    split; [apply begin_fn_run; reflexivity|]. split; reflexivity.
  - intros fn Hcur. unfold begin_fn. rewrite bind_get_p, Hcur. reflexivity.
  - destruct (cur_fn (parse_h w)) as [fn|] eqn:Hcur.
    + exists w. apply bind_aborted. unfold begin_fn. rewrite bind_get_p, Hcur.
      reflexivity.
    + eexists. rewrite (bind_done _ _ _ _ _ (begin_fn_run w Hcur)).
      unfold begin_fn. rewrite bind_get_p. reflexivity.
Qed.

Lemma end_fn_then_begin_fn_witness :
  begin_fn {| parse_h := set_cur_fn (Some zeroed_Fn) zeroed_ParseH; stderr := [] |}
  = Aborted (Abort_assert "!p->cur_fn")
      {| parse_h := set_cur_fn (Some zeroed_Fn) zeroed_ParseH; stderr := [] |}.
Proof.
  apply (proj1 (proj2 (proj2 (proj2 (end_fn_then_begin_fn
           {| parse_h := set_cur_fn (Some zeroed_Fn) zeroed_ParseH; stderr := [] |}))))
           zeroed_Fn).
  reflexivity.
Defined.

(** X13: at a function declaration with an exported storage class, no
    variadic type and the C calling convention, whose types can all be
    classified, [fn_visitor] finishes the function that was current,
    begins one with the name of the declaration, its classified return
    type and one argument per parameter type with the type classified and
    the name still empty, sets [arg_index] to 0 and asks for the
    children. *)
Theorem fn_visitor_begins_function (c : CXCursor) (w : World) :
  accepted c = true ->
  classifiable (clang_getResultType (clang_getCursorType c)) ->
  Forall classifiable (fn_arg_types (clang_getCursorType c)) ->
  exists T tys w',
    fn_visitor c w = Done CXChildVisit_Recurse w' /\
    classified (clang_getResultType (clang_getCursorType c)) T /\
    Forall2 classified (fn_arg_types (clang_getCursorType c)) tys /\
    cur_fn (parse_h w')
    = Some {| fn_name := clang_getCursorSpelling c; return_type := T;
              args := map typed tys |} /\
    fn_list (parse_h w') = collected (parse_h w) /\
    arg_index (parse_h w') = 0.
Proof.
  intros Hacc Hret Hargs.
  pose proof (fn_visitor_accepted c w Hacc) as H. cbn zeta in H.
  destruct (fn_visitor c w) as [r w'|e w'].
  - destruct H as (-> & T & tys & HT & Htys & Hcur & Hl & Hi & _).
    exists T, tys, w'. repeat split; assumption.
  - destruct H as [_ Hnot]. exfalso. apply Hnot. split; assumption.
Qed.

Lemma fn_visitor_begins_function_witness :
  exists w',
    fn_visitor Sample.add_decl initial_world = Done CXChildVisit_Recurse w' /\
    cur_fn (parse_h w')
    = Some {| fn_name := "add"; return_type := "i32";
              args := [typed "i32"; typed "i32"] |}.
Proof.
  destruct (fn_visitor_begins_function Sample.add_decl initial_world eq_refl)
    as (T & tys & w' & Hrun & _ & _ & Hcur & _).
  - exists "i32", initial_world, initial_world. reflexivity.
  - repeat constructor; exists "i32", initial_world, initial_world; reflexivity.
  - exists w'. split; [exact Hrun|].
    vm_compute in Hrun. inversion Hrun; subst. reflexivity.
Defined.

(** X14: [fn_visitor] never asks to break off, so a traversal that ends
    normally has gone through the whole tree; and the collector writes
    nothing to the output stream and leaves the indentation alone,
    whatever the tree. *)
Theorem traversal_never_broken (cs : list CXCursor) (w : World) :
  match visit_cursors fn_visitor cs w with
  | Done broken w' =>
      broken = false /\
      f (parse_h w') = f (parse_h w) /\
      cur_indent (parse_h w') = cur_indent (parse_h w)
  | Aborted _ _ => True
  end.
Proof.
  destruct (visit_cursors fn_visitor cs w) as [broken w'|e w'] eqn:Hrun; [|exact I].
  split.
  - eapply (visit_cursors_outcome_from cs); [|exact Hrun].
    apply Forall_forall. intros c _. apply visit_cursor_outcome.
  - eapply visit_cursors_keeps_stream. exact Hrun.
Qed.

(** X15: whatever the tree, the list of finished functions only grows at
    its end during a traversal: a function once finished is neither
    changed nor removed. *)
Theorem fn_list_append_only (cs : list CXCursor) (w : World) :
  match visit_cursors fn_visitor cs w with
  | Done _ w' =>
      exists more, fn_list (parse_h w') = (fn_list (parse_h w) ++ more)%list
  | Aborted _ _ => True
  end.
Proof.
  destruct (visit_cursors fn_visitor cs w) as [broken w'|e w'] eqn:Hrun; [|exact I].
  eapply (visit_cursors_outcome_from cs); [|exact Hrun].
  apply Forall_forall. intros c _. apply visit_cursor_outcome.
Qed.

(** X16: declarations that hold no function declaration (records, enums,
    typedefs, variables without parameter declarations) leave no trace:
    the traversal ends normally with the collector's state and the error
    stream as they were, and from an empty collector nothing is emitted. *)
Theorem declarations_without_functions (cs : list CXCursor) (w : World) :
  forallb param_free cs = true ->
  (exists w',
      visit_cursors fn_visitor cs w = Done false w' /\
      same_collector_state (parse_h w) (parse_h w') /\
      stderr w' = stderr w) /\
  (fn_list (parse_h w) = [] ->
   cur_fn (parse_h w) = None ->
   exists w',
     (visit_cursors fn_visitor cs ;;; end_fn ;;; emit) w = Done tt w' /\
     f (parse_h w') = f (parse_h w) /\
     fn_list (parse_h w') = [] /\
     stderr w' = stderr w).
Proof.
  intros Hfree.
  assert (Hvisit : forall w0, exists w',
             visit_cursors fn_visitor cs w0 = Done false w' /\
             same_collector_state (parse_h w0) (parse_h w') /\
             stderr w' = stderr w0).
  { induction cs as [|c cs IH]; intros w0.
    - exists w0. split; [reflexivity|].
      split; [apply same_collector_state_refl|reflexivity].
    - cbn [forallb] in Hfree. apply andb_prop in Hfree. destruct Hfree as [Hc Hcs].
      destruct (visit_param_free c Hc w0) as (w1 & Hrun1 & Hsame1 & Herr1).
      destruct (IH Hcs w1) as (w2 & Hrun2 & Hsame2 & Herr2).
      exists w2. cbn [visit_cursors]. rewrite (bind_done _ _ _ _ _ Hrun1).
      split; [exact Hrun2|].
      split; [eapply same_collector_state_trans; eassumption|congruence]. }
  split; [apply Hvisit|].
  intros Hlist Hcur.
  destruct (Hvisit w) as (w1 & Hrun & (Hf & Hl & Hc & _ & _) & Herr).
  eexists. rewrite (bind_done _ _ _ _ _ Hrun).
  rewrite (bind_done _ _ _ _ _ (end_fn_run w1)).
  unfold emit. rewrite bind_get_p. unfold collected.
  cbn [parse_h fn_list set_cur_fn set_fn_list].
  rewrite Hl, Hc, Hlist, Hcur. cbn [app].
  split; [reflexivity|]. cbn [parse_h f fn_list set_cur_fn set_fn_list stderr].
  repeat split; assumption.
Qed.

Lemma declarations_without_functions_witness :
  exists w',
    visit_cursors fn_visitor
      [Cursor CXCursor_StructDecl "point" (Sample.at_line 1) CX_SC_Invalid
         Sample.no_function_type
         [Cursor CXCursor_FieldDecl "x" (Sample.at_line 1) CX_SC_Invalid
            Sample.no_function_type []]] initial_world = Done false w' /\
    stderr w' = [].
Proof.
  destruct (proj1 (declarations_without_functions
              [Cursor CXCursor_StructDecl "point" (Sample.at_line 1) CX_SC_Invalid
                 Sample.no_function_type
                 [Cursor CXCursor_FieldDecl "x" (Sample.at_line 1) CX_SC_Invalid
                    Sample.no_function_type []]] initial_world eq_refl))
    as (w' & Hrun & _ & Herr).
  exists w'. split; [exact Hrun|exact Herr].
Defined.

(** ** The emitter at any indentation *)

Lemma emit_fn_run_at fn w :
  emit_fn fn w = Done tt (written (render_fn_at (cur_indent (parse_h w)) fn) w).
Proof.
  unfold emit_fn, print_indent.
  unfold get_p at 1. unfold bind at 1. unfold bind at 1.
  rewrite print_indent_from_run.
  rewrite (bind_done _ _ _ _ _ (fprintf_f_run _ _)).
  rewrite (bind_done _ _ _ _ _ (emit_args_run fn (args fn) 0 _ eq_refl)).
  rewrite (bind_done _ _ _ _ _ (fprintf_f_run _ _)).
  unfold render_fn_at, buf_eql_str.
  destruct (String.eqb (return_type fn) "void"); simpl negb; cbv iota.
  - unfold bind at 1, ret at 1. rewrite fprintf_f_run, !written_app.
    rewrite !CStr.append_assoc. reflexivity.
  - rewrite (bind_done _ _ _ _ _ (fprintf_f_run _ _)).
    rewrite fprintf_f_run, !written_app.
    rewrite !CStr.append_assoc. reflexivity.
Qed.

Lemma emit_fns_run_at fns :
  forall w,
    emit_fns fns w
    = Done tt (written (fold_right (fun fn rest =>
                                      render_fn_at (cur_indent (parse_h w)) fn ++ rest)
                          "" fns) w).
Proof.
  induction fns as [|fn fns IH]; intros w; cbn [fold_right emit_fns].
  - unfold ret. rewrite written_empty. reflexivity.
  - rewrite (bind_done _ _ _ _ _ (emit_fn_run_at fn w)).
    rewrite IH, written_app. reflexivity.
Qed.

Lemma fold_render_at_app indent fns tail :
  fold_right (fun fn rest => render_fn_at indent fn ++ rest) "" fns ++ tail
  = fold_right (fun fn rest => render_fn_at indent fn ++ rest) tail fns.
Proof.
  induction fns as [|fn fns IH]; cbn [fold_right]; [reflexivity|].
  rewrite CStr.append_assoc, IH. reflexivity.
Qed.

Lemma emit_run w :
  emit w = Done tt (match fn_list (parse_h w) with
                    | [] => w
                    | _ :: _ => emitted w
                    end).
Proof.
  unfold emit. rewrite bind_get_p.
  destruct (fn_list (parse_h w)) as [|fn fns] eqn:Hfns; [reflexivity|].
  rewrite (bind_done _ _ _ _ _ (fprintf_f_run _ _)).
  rewrite bind_modify_p.
  rewrite (bind_done _ _ _ _ _ (emit_fns_run_at (fn :: fns) _)).
  rewrite fprintf_f_run. f_equal.
  unfold emitted, written, set_f, set_cur_indent.
  cbn [parse_h f fn_list cur_fn arg_index cur_indent range location stderr].
  rewrite Hfns. unfold extern_block_at.
  rewrite <- (fold_render_at_app _ (fn :: fns) ("}" ++ nl)).
  rewrite !CStr.append_assoc. reflexivity.
Qed.

(** X17: [emit] never fails and writes nothing to the error stream.  On
    an empty function list it changes nothing at all.  Otherwise every
    function line is indented by the indentation of the state plus four,
    and the indentation stays raised by four afterwards, so a second
    [emit] writes the block again with eight more spaces than the state
    had at first. *)
Theorem emit_at_any_indent (w : World) :
  (fn_list (parse_h w) = [] -> emit w = Done tt w) /\
  (fn_list (parse_h w) <> [] ->
   emit w = Done tt (emitted w) /\
   f (parse_h (emitted w))
   = f (parse_h w)
     ++ extern_block_at (cur_indent (parse_h w) + 4) (fn_list (parse_h w)) /\
   cur_indent (parse_h (emitted w)) = cur_indent (parse_h w) + 4 /\
   fn_list (parse_h (emitted w)) = fn_list (parse_h w) /\
   stderr (emitted w) = stderr w /\
   exists w2,
     (emit ;;; emit) w = Done tt w2 /\
     f (parse_h w2)
     = f (parse_h w)
       ++ extern_block_at (cur_indent (parse_h w) + 4) (fn_list (parse_h w))
       ++ extern_block_at (cur_indent (parse_h w) + 8) (fn_list (parse_h w))).
Proof.
  split.
  - intros Hnil. rewrite emit_run, Hnil. reflexivity.
  - intros Hne.
    assert (Hrun : emit w = Done tt (emitted w)).
    { rewrite emit_run. destruct (fn_list (parse_h w)); [congruence|reflexivity]. }
    split; [exact Hrun|]. do 4 (split; [reflexivity|]).
    eexists. rewrite (bind_done _ _ _ _ _ Hrun), emit_run.
    cbn [emitted parse_h fn_list set_f set_cur_indent].
    destruct (fn_list (parse_h w)) as [|fn fns] eqn:Hfns; [congruence|].
    split; [reflexivity|].
    cbn [emitted parse_h f fn_list cur_indent set_f set_cur_indent].
    rewrite Hfns, CStr.append_assoc, <- Nat.add_assoc. reflexivity.
Qed.

Lemma emit_at_any_indent_witness :
  exists w',
    emit {| parse_h :=
              set_cur_indent 2
                (set_fn_list [ {| fn_name := "f"; return_type := "void"; args := [] |} ]
                   zeroed_ParseH);
            stderr := [] |} = Done tt w' /\
    f (parse_h w') = "extern {" ++ nl ++ "      fn f();" ++ nl ++ "}" ++ nl.
Proof.
  destruct (proj2 (emit_at_any_indent
              {| parse_h :=
                   set_cur_indent 2
                     (set_fn_list
                        [ {| fn_name := "f"; return_type := "void"; args := [] |} ]
                        zeroed_ParseH);
                 stderr := [] |})) as (Hrun & Hf & _).
  - discriminate.
  - eexists. split; [exact Hrun|]. rewrite Hf. reflexivity.
Defined.

(** ** Failures of the parser *)

Lemma report_diagnostics_run ds :
  forall w, report_diagnostics ds w = Done tt (erred (map diagnostic_line ds) w).
Proof.
  induction ds as [|d ds IH]; intros w.
  - cbn [report_diagnostics map]. rewrite erred_nil. reflexivity.
  - cbn [report_diagnostics map]. unfold bind, fprintf_stderr.
    rewrite IH. f_equal. unfold erred. cbn [parse_h stderr].
    rewrite <- app_assoc. reflexivity.
Qed.

Section ParseHFileFailures.

Variable getenv : string -> option string.
Variable clang_parseTranslationUnit2 :
  string -> list (option string) -> nat -> nat + CXTranslationUnit.
Variable target_path : string.
Variable clang_argv : list (option string).

(** What [parse_h_file] hands to the parser. *)
Let passed_argv : list (option string) :=
  append_cflags (getenv "ZIG_PARSEH_CFLAGS") clang_argv.
Let parsed : nat + CXTranslationUnit :=
  clang_parseTranslationUnit2 target_path passed_argv (List.length passed_argv - 1).

(** X18: when the parser gives an error code, [parse_h_file] panics with
    [parse translation unit failure]: nothing is visited, nothing is
    written to the output or the error stream. *)
Theorem parse_failure_panics (w : World) (code : nat) :
  parsed = inl code ->
  parse_h_file getenv clang_parseTranslationUnit2 target_path clang_argv w
  = Aborted (Abort_panic "parse translation unit failure") (fresh w).
Proof.
  intros Hparsed. unfold parse_h_file. rewrite (bind_modify_p _ _ w).
  fold passed_argv. fold parsed. rewrite Hparsed. reflexivity.
Qed.

(** X19: when the translation unit has diagnostics, each is written to the
    error stream in order as [file line L, column C: text], and the run
    exits with status 1 before any declaration is visited: no function is
    collected and nothing is written to the output, whatever the tree
    holds. *)
Theorem diagnostics_exit (w : World) (tu : CXTranslationUnit) :
  parsed = inr tu ->
  tu_diagnostics tu <> [] ->
  parse_h_file getenv clang_parseTranslationUnit2 target_path clang_argv w
  = Aborted (Abort_exit 1) (erred (map diagnostic_line (tu_diagnostics tu)) (fresh w)) /\
  f (parse_h (erred (map diagnostic_line (tu_diagnostics tu)) (fresh w)))
  = f (parse_h w) /\
  fn_list (parse_h (erred (map diagnostic_line (tu_diagnostics tu)) (fresh w))) = [].
Proof.
  intros Hparsed Hdiag. split; [|split; reflexivity].
  unfold parse_h_file. rewrite (bind_modify_p _ _ w).
  fold passed_argv. fold parsed. rewrite Hparsed.
  destruct (tu_diagnostics tu) as [|d ds] eqn:Hds; [congruence|].
  rewrite (bind_done _ _ _ _ _ (report_diagnostics_run (d :: ds) _)).
  reflexivity.
Qed.

End ParseHFileFailures.

Lemma parse_failure_panics_witness :
  parse_h_file (fun _ => None) (fun _ _ _ => inl 1) "missing.h" [] initial_world
  = Aborted (Abort_panic "parse translation unit failure") initial_world.
Proof.
  apply (parse_failure_panics (fun _ => None) (fun _ _ _ => inl 1) "missing.h" []
           initial_world 1).
  reflexivity.
Defined.

Lemma diagnostics_exit_witness :
  parse_h_file (fun _ => None)
    (fun _ _ _ =>
       inr {| tu_diagnostics :=
                [ {| diag_location := range_start (Sample.at_line 3);
                     diag_spelling := "unknown type name 'foo'" |} ];
              tu_cursor :=
                Cursor CXCursor_UnexposedDecl "" (Sample.at_line 0) CX_SC_Invalid
                  Sample.no_function_type Sample.header |})
    "sample.h" [] initial_world
  = Aborted (Abort_exit 1)
      {| parse_h := zeroed_ParseH;
         stderr := ["sample.h line 3, column 1: unknown type name 'foo'" ++ nl] |}.
Proof.
  apply (proj1 (diagnostics_exit (fun _ => None)
                  (fun _ _ _ =>
                     inr {| tu_diagnostics :=
                              [ {| diag_location := range_start (Sample.at_line 3);
                                   diag_spelling := "unknown type name 'foo'" |} ];
                            tu_cursor :=
                              Cursor CXCursor_UnexposedDecl "" (Sample.at_line 0)
                                CX_SC_Invalid Sample.no_function_type Sample.header |})
                  "sample.h" [] initial_world _ eq_refl ltac:(discriminate))).
Defined.

(** ** Compiler flags, both ways *)

Lemma strstr_space_none s :
  has_space s = false -> CStr.strstr_space s = None.
Proof.
  induction s as [|c s IH]; cbn [has_space CStr.strstr_space]; [reflexivity|].
  intros H. apply orb_false_elim in H. destruct H as [Hc Hs].
  rewrite Hc, (IH Hs). reflexivity.
Qed.


Lemma segments_of_joined ts :
  ts <> [] ->
  Forall (fun t => has_space t = false) ts ->
  segments (String.concat " " ts) = ts.
Proof.
  induction ts as [|t ts IH]; intros Hne Hall; [congruence|].
  inversion Hall as [|? ? Ht Hts]; subst.
  destruct ts as [|t' ts'].
  - cbn [String.concat]. apply segments_no_space, strstr_space_none, Ht.
  - change (String.concat " " (t :: t' :: ts'))
      with (t ++ String " " (String.concat " " (t' :: ts'))).
    rewrite segments_app_space, IH by (discriminate || assumption).
    rewrite (segments_no_space _ (strstr_space_none _ Ht)). reflexivity.
Qed.

Lemma filter_all {A} (p : A -> bool) (l : list A) :
  Forall (fun a => p a = true) l -> filter p l = l.
Proof.
  induction 1 as [|a l Ha _ IH]; cbn [filter]; [reflexivity|].
  rewrite Ha, IH. reflexivity.
Qed.


(** X20: flags that hold no space, none of them empty except perhaps the
    last, joined by single spaces, are split into exactly those flags
    again. *)
Theorem cflags_round_trip (tokens : list string) (clang_argv : list (option string)) :
  tokens <> [] ->
  Forall (fun t => has_space t = false) tokens ->
  Forall (fun t => nonempty t = true) (removelast tokens) ->
  split_cflags (String.concat " " tokens) clang_argv
  = (clang_argv ++ map Some tokens)%list.
Proof.
  intros Hne Hspace Hfull.
  rewrite split_cflags_tokens. f_equal. f_equal.
  unfold flag_tokens, last_segment.
  rewrite (segments_of_joined tokens Hne Hspace).
  rewrite (filter_all _ _ Hfull).
  symmetry. apply app_removelast_last. exact Hne.
Qed.

Lemma cflags_round_trip_witness :
  split_cflags (String.concat " " ["-I/usr/include"; "-DFOO=1"; "-std=c99"]) []
  = [Some "-I/usr/include"; Some "-DFOO=1"; Some "-std=c99"].
Proof.
  apply (cflags_round_trip ["-I/usr/include"; "-DFOO=1"; "-std=c99"] []).
  - discriminate.
  - repeat constructor.
  - repeat constructor.
Defined.


(** ** A whole run *)

Lemma extern_block_at_four fns : extern_block_at (0 + indent_size) fns = extern_block fns.
Proof. reflexivity. Qed.

(** X22: when the parser gives a translation unit without diagnostics
    whose tree is well formed and whose accepted declarations have types
    that can be classified, [parse_h_file] ends normally: it hands back
    the argument list it passed to the parser, has collected one function
    per accepted declaration in their order, and has written the block for
    them to the output, or nothing when no declaration was accepted. *)
Theorem parse_h_file_translates
    (getenv : string -> option string)
    (clang_parseTranslationUnit2 :
       string -> list (option string) -> nat -> nat + CXTranslationUnit)
    (target_path : string) (clang_argv : list (option string))
    (w : World) (tu : CXTranslationUnit) :
  let passed_argv := append_cflags (getenv "ZIG_PARSEH_CFLAGS") clang_argv in
  clang_parseTranslationUnit2 target_path passed_argv (List.length passed_argv - 1)
  = inr tu ->
  tu_diagnostics tu = [] ->
  forallb well_formed (cursor_children (tu_cursor tu)) = true ->
  all_translatable (cursor_children (tu_cursor tu)) ->
  exists fns w',
    parse_h_file getenv clang_parseTranslationUnit2 target_path clang_argv w
    = Done passed_argv w' /\
    Forall2 fn_matches (flat_map declared (cursor_children (tu_cursor tu))) fns /\
    fn_list (parse_h w') = fns /\
    f (parse_h w')
    = f (parse_h w) ++ match fns with
                       | [] => ""
                       | _ :: _ => extern_block fns
                       end.
Proof.
  intros passed_argv Hparsed Hdiag Hwf Hok.
  unfold parse_h_file. rewrite (bind_modify_p _ _ w).
  fold passed_argv. rewrite Hparsed, Hdiag.
  unfold bind at 1. unfold clang_visitChildren.
  pose proof (visit_cursors_well_formed (cursor_children (tu_cursor tu))
                (proj2 (Forall_forall _ _) (fun c _ => visit_well_formed c))
                Hwf (fresh w)) as Hvisit.
  fold (fresh w).
  destruct (visit_cursors fn_visitor (cursor_children (tu_cursor tu)) (fresh w))
    as [broken w1|e w1].
  - destruct Hvisit as (_ & Hf1 & Hi1 & fns & Hcol & Hmatch).
    cbn [fresh collected parse_h fn_list cur_fn set_f zeroed_ParseH app] in Hcol.
    cbn [fresh parse_h f cur_indent set_f zeroed_ParseH] in Hf1, Hi1.
    rewrite (bind_done _ _ _ _ _ (end_fn_run w1)).
    rewrite (bind_done _ _ _ _ _ (emit_run _)).
    cbn [parse_h fn_list set_cur_fn set_fn_list]. rewrite Hcol.
    unfold ret. exists fns. eexists. split; [reflexivity|].
    split; [exact Hmatch|].
    destruct fns as [|fn fns].
    + cbn [parse_h fn_list f set_cur_fn set_fn_list].
      rewrite Hf1, CStr.append_empty_r. split; reflexivity.
    + unfold emitted.
      cbn [parse_h fn_list f cur_indent set_cur_fn set_fn_list set_f set_cur_indent].
      rewrite Hf1, Hi1, extern_block_at_four. split; reflexivity.
  - destruct Hvisit as [_ Hnot]. contradiction.
Qed.

Lemma parse_h_file_translates_witness :
  exists w',
    parse_h_file (fun _ => Some "-DNDEBUG")
      (fun _ _ _ =>
         inr {| tu_diagnostics := [];
                tu_cursor :=
                  Cursor CXCursor_UnexposedDecl "" (Sample.at_line 0) CX_SC_Invalid
                    Sample.no_function_type Sample.header |})
      "sample.h" [Some "-x"; Some "c"] initial_world
    = Done [Some "-x"; Some "c"; Some "-DNDEBUG"; None] w' /\
    f (parse_h w')
    = "extern {" ++ nl
      ++ "    fn add(a: i32, b: i32) -> i32;" ++ nl
      ++ "    fn log(msg: *const u8);" ++ nl
      ++ "}" ++ nl.
Proof.
  destruct (parse_h_file_translates (fun _ => Some "-DNDEBUG")
              (fun _ _ _ =>
                 inr {| tu_diagnostics := [];
                        tu_cursor :=
                          Cursor CXCursor_UnexposedDecl "" (Sample.at_line 0)
                            CX_SC_Invalid Sample.no_function_type Sample.header |})
              "sample.h" [Some "-x"; Some "c"] initial_world _ eq_refl eq_refl eq_refl)
    as (fns & w' & Hrun & _ & _ & _).
  - simpl.
    repeat match goal with
           | |- _ /\ _ => split
           | |- _ <> _ => discriminate
           | |- _ = true -> _ => intros _
           | |- True => exact I
           | |- Forall _ _ => constructor
           | |- classifiable _ =>
               eexists; exists initial_world; eexists; vm_compute; reflexivity
           end.
  - exists w'. split; [exact Hrun|].
    vm_compute in Hrun. inversion Hrun; subst. reflexivity.
Defined.
